(** * spfy: volume backends, fades and playback orchestration

    A shallow embedding of [spfy/mixins/asynch/player.py] (the asynchronous
    [PlayerMixin]) and of [spfy/wrapper.py] (the synchronous [Spotify]
    wrapper).  Python objects with identity are records carrying an object
    id drawn from an allocator in the state; [cached_property] is an
    explicit memo cell; exceptions are an outcome threaded through a state
    monad; volume writes and scheduled ramps are recorded in a chronological
    trace. *)

From Stdlib Require Import ZArith List String Bool Lia PeanoNat.
Import ListNotations.

Set Implicit Arguments.

(** ** Python values shared by both files *)

(** [constants.VolumeBackend]: the four members used by the sources. *)
Inductive VolumeBackend : Type := APPLESCRIPT | LINUX | ALSA | SPOTIFY.

Definition VolumeBackend_eqb (a b : VolumeBackend) : bool :=
  match a, b with
  | APPLESCRIPT, APPLESCRIPT | LINUX, LINUX | ALSA, ALSA | SPOTIFY, SPOTIFY => true
  | _, _ => false
  end.

Definition members : list VolumeBackend := [APPLESCRIPT; LINUX; ALSA; SPOTIFY].

(** The classes imported from [volume]. *)
Inductive Class : Type :=
| ApplescriptVolumeControl
| LinuxVolumeControl
| LinuxVolumeControlAsync
| AlsaVolumeControl
| SpotifyVolumeControl
| SpotifyVolumeControlAsync.

Definition Class_eqb (a b : Class) : bool :=
  match a, b with
  | ApplescriptVolumeControl, ApplescriptVolumeControl
  | LinuxVolumeControl, LinuxVolumeControl
  | LinuxVolumeControlAsync, LinuxVolumeControlAsync
  | AlsaVolumeControl, AlsaVolumeControl
  | SpotifyVolumeControl, SpotifyVolumeControl
  | SpotifyVolumeControlAsync, SpotifyVolumeControlAsync => true
  | _, _ => false
  end.

(** A volume-control instance: its identity, its class and the remote
    device it was bound to at construction ([None] for the classes that
    take no remote device). *)
Record Control : Type := mkControl {
  oid : nat;
  cls : Class;
  bound_device : option string
}.

(** A backend argument as a caller may pass it: an enum member or a raw
    enum value. *)
Inductive backend_arg : Type :=
| Member (k : VolumeBackend)
| Value (s : string).

Inductive exn : Type :=
| ValueError (msg : string)
| AssertionError
| AttributeError (msg : string)
| IndexError
| KeyError (k : VolumeBackend)
| ConstructorFailure (c : Class).

Inductive outcome (A : Type) : Type :=
| Return (a : A)
| Raise (e : exn).
Arguments Raise {A} e.

(** What the host and the absent modules contribute: [sys.platform],
    [os.uname().sysname], the values of the [VolumeBackend] members, and for
    each local class whether its constructor raises on this host. *)
Record Host : Type := mkHost {
  platform : string;
  sysname : string;
  enum_value : VolumeBackend -> string;
  constructor_raises : Class -> bool
}.

(** ** State and exceptions *)

Definition M (S A : Type) : Type := S -> outcome A * S.

Definition ret {S A} (a : A) : M S A := fun st => (Return a, st).
Definition raise {S A} (e : exn) : M S A := fun st => (Raise e, st).
Definition bind {S A B} (m : M S A) (k : A -> M S B) : M S B :=
  fun st => match m st with
            | (Return a, st') => k a st'
            | (Raise e, st') => (Raise e, st')
            end.
Definition lift {S A} (o : outcome A) : M S A := fun st => (o, st).

Declare Scope py_scope.
Delimit Scope py_scope with py.
Notation "x <- m ;; k" := (bind m (fun x => k))
  (at level 61, m at next level, right associativity) : py_scope.
Notation "m ;;; k" := (bind m (fun _ => k))
  (at level 61, right associativity) : py_scope.

(** [try: body except: handler] with a bare [except]. *)
Definition try_except {S A} (body handler : M S A) : M S A :=
  fun st => match body st with
            | (Return a, st') => (Return a, st')
            | (Raise _, st') => handler st'
            end.

(** [cached_property]: the body runs on first access and its result, also
    [None], is stored; a body that raises stores nothing. *)
Definition cached_property {S A} (get : S -> option A) (set : A -> S -> S)
    (body : M S A) : M S A :=
  fun st => match get st with
            | Some v => (Return v, st)
            | None => match body st with
                      | (Return v, st') => (Return v, set v st')
                      | (Raise e, st') => (Raise e, st')
                      end
            end.

(** Truthiness of the Python values that the sources test. *)
Definition truthy_str (s : option string) : bool :=
  match s with
  | None => false
  | Some s => negb (s =? "")%string
  end.

Definition truthy_arg (b : option backend_arg) : bool :=
  match b with
  | None => false
  | Some (Member _) => true
  | Some (Value s) => negb (s =? "")%string
  end.

(** Instances of the volume classes are ordinary objects, hence truthy. *)
Definition truthy_ctl (c : option Control) : bool :=
  match c with
  | None => false
  | Some _ => true
  end.

Definition opt_str_eqb (a b : option string) : bool :=
  match a, b with
  | None, None => true
  | Some x, Some y => (x =? y)%string
  | _, _ => false
  end.

(** [first(iterable)] of the [first] package: the first truthy element,
    [None] when there is none. *)
Fixpoint first (l : list (option Control)) : option Control :=
  match l with
  | [] => None
  | x :: t => if truthy_ctl x then x else first t
  end.

(** [VolumeBackend(backend)]: a member is returned as is, a value is looked
    up among the members. *)
Definition VolumeBackend_of (h : Host) (b : backend_arg) : outcome VolumeBackend :=
  match b with
  | Member k => Return k
  | Value s =>
      match find (fun k => (enum_value h k =? s)%string) members with
      | Some k => Return k
      | None => Raise (ValueError ("'" ++ s ++ "' is not a valid VolumeBackend"))
      end
  end.

Definition clamp (v : Z) : Z := Z.max 0 (Z.min 100 v).

(** Where a control's volume lives: a local mixer per class, or the remote
    stream of a device. *)
Inductive Target : Type :=
| Mixer (c : Class)
| Stream (d : option string).

Definition Target_eqb (a b : Target) : bool :=
  match a, b with
  | Mixer x, Mixer y => Class_eqb x y
  | Stream x, Stream y => opt_str_eqb x y
  | _, _ => false
  end.

Record FadeSpec : Type := mkFadeSpec {
  fs_limit : Z;
  fs_start : Z;
  fs_step : Z;
  fs_seconds : Z;
  fs_force : bool
}.

(** ** The asynchronous player mixin ([spfy/mixins/asynch/player.py]) *)

Module Player.

(** The attributes set by [PlayerMixin.__init__]. *)
Record Session : Type := mkSession {
  device : option string;
  alsa_device : option string;
  alsa_mixer : option string;
  speaker : option string
}.

(** What a call does to the outside world, in the order it happens. *)
Inductive Event : Type :=
| SetMixer (c : Control) (v : Z)
| SetVolume (c : Control) (v : Z) (fade : bool) (fade_seconds : Z)
| AwaitRamp (c : Control) (spec : FadeSpec)
| CreateTask (c : Control) (spec : FadeSpec) (task : nat)
| RunInExecutor (c : Control) (spec : FadeSpec)
| PlaylistPlay (playlist : nat) (dev : option string).

Record State : Type := mkState {
  next_oid : nat;
  applescript_cell : option (option Control);
  linux_cell : option (option Control);
  alsa_cell : option (option Control);
  spotify_cell : option Control;
  backends_cell : option (list (VolumeBackend * option Control));
  optimal_cell : option (option Control);
  levels : Target -> Z;
  next_task : nat;
  trace : list Event
}.

Definition set_next_oid (n : nat) (s : State) : State :=
  mkState n (applescript_cell s) (linux_cell s) (alsa_cell s) (spotify_cell s)
    (backends_cell s) (optimal_cell s) (levels s) (next_task s) (trace s).
Definition set_applescript_cell (v : option Control) (s : State) : State :=
  mkState (next_oid s) (Some v) (linux_cell s) (alsa_cell s) (spotify_cell s)
    (backends_cell s) (optimal_cell s) (levels s) (next_task s) (trace s).
Definition set_linux_cell (v : option Control) (s : State) : State :=
  mkState (next_oid s) (applescript_cell s) (Some v) (alsa_cell s) (spotify_cell s)
    (backends_cell s) (optimal_cell s) (levels s) (next_task s) (trace s).
Definition set_alsa_cell (v : option Control) (s : State) : State :=
  mkState (next_oid s) (applescript_cell s) (linux_cell s) (Some v) (spotify_cell s)
    (backends_cell s) (optimal_cell s) (levels s) (next_task s) (trace s).
Definition set_spotify_cell (v : Control) (s : State) : State :=
  mkState (next_oid s) (applescript_cell s) (linux_cell s) (alsa_cell s) (Some v)
    (backends_cell s) (optimal_cell s) (levels s) (next_task s) (trace s).
Definition set_backends_cell (v : list (VolumeBackend * option Control)) (s : State) : State :=
  mkState (next_oid s) (applescript_cell s) (linux_cell s) (alsa_cell s) (spotify_cell s)
    (Some v) (optimal_cell s) (levels s) (next_task s) (trace s).
Definition set_optimal_cell (v : option Control) (s : State) : State :=
  mkState (next_oid s) (applescript_cell s) (linux_cell s) (alsa_cell s) (spotify_cell s)
    (backends_cell s) (Some v) (levels s) (next_task s) (trace s).
Definition set_level (t : Target) (v : Z) (s : State) : State :=
  mkState (next_oid s) (applescript_cell s) (linux_cell s) (alsa_cell s) (spotify_cell s)
    (backends_cell s) (optimal_cell s)
    (fun t' => if Target_eqb t t' then v else levels s t') (next_task s) (trace s).
Definition set_next_task (n : nat) (s : State) : State :=
  mkState (next_oid s) (applescript_cell s) (linux_cell s) (alsa_cell s) (spotify_cell s)
    (backends_cell s) (optimal_cell s) (levels s) n (trace s).
Definition log (e : Event) (s : State) : State :=
  mkState (next_oid s) (applescript_cell s) (linux_cell s) (alsa_cell s) (spotify_cell s)
    (backends_cell s) (optimal_cell s) (levels s) (next_task s) (trace s ++ [e]).

(** A session before any property was read. *)
Definition fresh (lv : Target -> Z) : State :=
  mkState 0 None None None None None None lv 0 [].

Local Open Scope py_scope.

Section WithHost.

Variable h : Host.
Variable self : Session.

(** Object creation: a new identity every time. *)
Definition new (c : Class) (d : option string) : M State Control :=
  fun st => (Return (mkControl (next_oid st) c d), set_next_oid (S (next_oid st)) st).

(** A constructor of a local class: it raises where the host says so. *)
Definition construct (c : Class) (d : option string) : M State Control :=
  if constructor_raises h c then raise (ConstructorFailure c) else new c d.

(** Modelled from the spec: the constructor of [SpotifyVolumeControlAsync]
    (module [volume] is not among the sources).  The remote backend has no
    OS dependency and is always constructible. *)
Definition construct_remote (d : option string) : M State Control :=
  new SpotifyVolumeControlAsync d.

Definition _applescript_volume_control : M State (option Control) :=
  cached_property applescript_cell set_applescript_cell
    (try_except
       (if negb (platform h =? "darwin")%string then ret None
        else c <- construct ApplescriptVolumeControl None ;; ret (Some c))
       (ret None)).

Definition _linux_volume_control : M State (option Control) :=
  cached_property linux_cell set_linux_cell
    (try_except
       (if negb (platform h =? "linux")%string then ret None
        else c <- construct LinuxVolumeControlAsync (device self) ;; ret (Some c))
       (ret None)).

Definition _alsa_volume_control : M State (option Control) :=
  cached_property alsa_cell set_alsa_cell
    (try_except
       (if negb (platform h =? "linux")%string then ret None
        else c <- construct AlsaVolumeControl None ;; ret (Some c))
       (ret None)).

Definition _spotify_volume_control : M State Control :=
  cached_property spotify_cell set_spotify_cell
    (construct_remote (device self)).

(** The [OrderedDict] literal: keys in source order, values evaluated in
    that order. *)
Definition _backends : M State (list (VolumeBackend * option Control)) :=
  cached_property backends_cell set_backends_cell
    (a <- _applescript_volume_control ;;
     l <- _linux_volume_control ;;
     al <- _alsa_volume_control ;;
     s <- _spotify_volume_control ;;
     ret [(APPLESCRIPT, a); (LINUX, l); (ALSA, al); (SPOTIFY, Some s)]).

Definition values (d : list (VolumeBackend * option Control)) : list (option Control) :=
  map snd d.

Definition _optimal_backend : M State (option Control) :=
  cached_property optimal_cell set_optimal_cell
    (d <- _backends ;; ret (first (values d))).

(** [d[k]] on the ordered dictionary. *)
Fixpoint getitem (d : list (VolumeBackend * option Control)) (k : VolumeBackend)
  : outcome (option Control) :=
  match d with
  | [] => Raise (KeyError k)
  | (k', v) :: t => if VolumeBackend_eqb k' k then Return v else getitem t k
  end.

Definition isinstance (c : option Control) (classes : list Class) : bool :=
  match c with
  | None => false
  | Some c => existsb (Class_eqb (cls c)) classes
  end.

Definition backend (b : option backend_arg) (dev : option string)
  : M State (option Control) :=
  if negb (truthy_arg b) then _optimal_backend
  else
    match b with
    | None => _optimal_backend
    | Some arg =>
        d <- _backends ;;
        k <- lift (VolumeBackend_of h arg) ;;
        volume_backend <- lift (getitem d k) ;;
        if negb (truthy_ctl volume_backend) then
          (* the f-string renders [volume_backend], which is [None] here *)
          raise (ValueError "Backend None is not available on this system")
        else if isinstance volume_backend [SpotifyVolumeControlAsync]
                && truthy_str dev && negb (opt_str_eqb dev (device self))
        then c <- construct_remote dev ;; ret (Some c)
        else ret volume_backend
    end.

(** Modelled from the spec: the volume primitives of the classes of module
    [volume] (not among the sources).  Reading returns the level of the
    control's target; writing stores the requested level clamped to
    [0, 100] (section 3: backends must clamp) and is logged with the value
    that was requested. *)
Definition target_of (c : Control) : Target :=
  match cls c with
  | SpotifyVolumeControlAsync | SpotifyVolumeControl => Stream (bound_device c)
  | k => Mixer k
  end.

Definition get_mixer (c : option Control) : M State Z :=
  match c with
  | None => raise (AttributeError "'NoneType' object has no attribute 'volume'")
  | Some c => fun st => (Return (levels st (target_of c)), st)
  end.

Definition set_mixer (c : option Control) (v : Z) : M State unit :=
  match c with
  | None => raise (AttributeError "'NoneType' object has no attribute 'volume'")
  | Some c => fun st => (Return tt, log (SetMixer c v) (set_level (target_of c) (clamp v) st))
  end.

Definition volume (c : Control) : M State Z :=
  fun st => (Return (levels st (target_of c)), st).

Definition set_volume (c : Control) (v : Z) (fade : bool) (fade_seconds : Z) : M State unit :=
  fun st => (Return tt, log (SetVolume c v fade fade_seconds)
                            (set_level (target_of c) (clamp v) st)).

(** What [change_volume] hands back: the level it computed, or whatever the
    remote [set_volume] returned for the level it was asked to apply. *)
Inductive Returned : Type :=
| Level (v : Z)
| FromSetVolume (c : Control) (v : Z).

Definition change_volume (by_ : Z) (to : option Z) (b : option backend_arg)
    (dev : option string) (fade : bool) (fade_seconds : Z) : M State Returned :=
  volume_backend <- backend b dev ;;
  let local :=
    vol <- match to with
           | Some t => ret t
           | None => get_mixer volume_backend
           end ;;
    let new_volume := (vol + by_)%Z in
    set_mixer volume_backend new_volume ;;;
    ret (Level new_volume) in
  match volume_backend with
  | Some c =>
      if Class_eqb (cls c) SpotifyVolumeControlAsync then
        vol <- match to with
               | Some t => ret t
               | None => volume c
               end ;;
        set_volume c (vol + by_) fade fade_seconds ;;;
        ret (FromSetVolume c (vol + by_))
      else local
  | None => local
  end.

Definition volume_up (b : option backend_arg) : M State Returned :=
  change_volume 1 None b None false 5.

Definition volume_down (b : option backend_arg) : M State Returned :=
  change_volume (-1) None b None false 5.

Definition await_ramp (c : Control) (spec : FadeSpec) : M State unit :=
  fun st => (Return tt, log (AwaitRamp c spec) st).

Definition create_task (c : Control) (spec : FadeSpec) : M State nat :=
  fun st => (Return (next_task st),
             log (CreateTask c spec (next_task st)) (set_next_task (S (next_task st)) st)).

Definition run_in_executor (c : Control) (spec : FadeSpec) : M State unit :=
  fun st => (Return tt, log (RunInExecutor c spec) st).

(** [fade]: the result is the task handle, [None] when there is none. *)
Definition fade (limit start step seconds : Z) (force : bool)
    (b : option backend_arg) (spotify_volume : Z) (dev : option string)
    (blocking : bool) : M State (option nat) :=
  volume_backend <- backend b dev ;;
  (if negb (isinstance volume_backend [SpotifyVolumeControlAsync]) then
     change_volume 0 (Some spotify_volume) (Some (Member SPOTIFY)) dev false 5 ;;; ret tt
   else ret tt) ;;;
  change_volume 0 (Some start) b dev false 5 ;;;
  let kwargs := mkFadeSpec limit start step seconds force in
  if isinstance volume_backend [SpotifyVolumeControlAsync; LinuxVolumeControlAsync] then
    match volume_backend with
    | Some c =>
        if blocking then await_ramp c kwargs ;;; ret None
        else t <- create_task c kwargs ;; ret (Some t)
    | None => raise (AttributeError "'NoneType' object has no attribute 'fade'")
    end
  else
    match volume_backend with
    | Some c => run_in_executor c kwargs ;;; ret None
    | None => raise (AttributeError "'NoneType' object has no attribute 'fade'")
    end.

(** *** Availability, well-formed sessions and state extension *)

Definition priority : list VolumeBackend := [APPLESCRIPT; LINUX; ALSA; SPOTIFY].

Definition class_of (k : VolumeBackend) : Class :=
  match k with
  | APPLESCRIPT => ApplescriptVolumeControl
  | LINUX => LinuxVolumeControlAsync
  | ALSA => AlsaVolumeControl
  | SPOTIFY => SpotifyVolumeControlAsync
  end.

(** A kind is available when it targets this platform and its constructor
    does not raise here. *)
Definition available (k : VolumeBackend) : bool :=
  match k with
  | APPLESCRIPT =>
      (platform h =? "darwin")%string && negb (constructor_raises h ApplescriptVolumeControl)
  | LINUX =>
      (platform h =? "linux")%string && negb (constructor_raises h LinuxVolumeControlAsync)
  | ALSA =>
      (platform h =? "linux")%string && negb (constructor_raises h AlsaVolumeControl)
  | SPOTIFY => true
  end.

Definition binding (k : VolumeBackend) : option string :=
  match k with
  | LINUX | SPOTIFY => device self
  | _ => None
  end.

(** The memo cell of a kind's property. *)
Definition cell (k : VolumeBackend) (st : State) : option (option Control) :=
  match k with
  | APPLESCRIPT => applescript_cell st
  | LINUX => linux_cell st
  | ALSA => alsa_cell st
  | SPOTIFY => option_map Some (spotify_cell st)
  end.

Definition entry_ok (n : nat) (k : VolumeBackend) (v : option Control) : Prop :=
  match v with
  | None => available k = false
  | Some c =>
      available k = true /\ cls c = class_of k /\ oid c < n /\ bound_device c = binding k
  end.

Definition table (a l al : option Control) (s : Control)
  : list (VolumeBackend * option Control) :=
  [(APPLESCRIPT, a); (LINUX, l); (ALSA, al); (SPOTIFY, Some s)].

Record wf (st : State) : Prop := mkWf {
  wf_cell : forall k v, cell k st = Some v -> entry_ok (next_oid st) k v;
  wf_backends : forall d, backends_cell st = Some d ->
    exists a l al s,
      cell APPLESCRIPT st = Some a /\ cell LINUX st = Some l /\
      cell ALSA st = Some al /\ cell SPOTIFY st = Some (Some s) /\
      d = table a l al s;
  wf_optimal : forall o, optimal_cell st = Some o ->
    exists d, backends_cell st = Some d /\ o = first (values d)
}.

(** [ext st st']: [st'] has memoized and allocated more than [st] and
    nothing else differs: no level changed, nothing was logged. *)
Record ext (st st' : State) : Prop := mkExt {
  ext_oid : next_oid st <= next_oid st';
  ext_cell : forall k v, cell k st = Some v -> cell k st' = Some v;
  ext_backends : forall d, backends_cell st = Some d -> backends_cell st' = Some d;
  ext_optimal : forall o, optimal_cell st = Some o -> optimal_cell st' = Some o;
  ext_levels : levels st' = levels st;
  ext_task : next_task st' = next_task st;
  ext_trace : trace st' = trace st
}.

(** The kind a resolution settles on, as a function of the host alone:
    the named kind when it is available, the first available kind in
    priority order when no backend is named. *)
Definition default_kind : VolumeBackend :=
  match find available priority with
  | Some k => k
  | None => SPOTIFY
  end.

Definition unavailable : exn :=
  ValueError "Backend None is not available on this system".

Definition chosen (b : option backend_arg) : outcome VolumeBackend :=
  match b with
  | None => Return default_kind
  | Some arg =>
      if truthy_arg b then
        match VolumeBackend_of h arg with
        | Return k => if available k then Return k else Raise unavailable
        | Raise e => Raise e
        end
      else Return default_kind
  end.

(** Whether a resolution builds a throwaway remote instance. *)
Definition throwaway (b : option backend_arg) (k : VolumeBackend) (dev : option string) : bool :=
  truthy_arg b && VolumeBackend_eqb k SPOTIFY && truthy_str dev
  && negb (opt_str_eqb dev (device self)).

(** [resolved st st' b dev k c]: in the state [st'] reached from [st] by
    a resolution, [c] is what resolving kind [k] hands out: the memoized
    instance of the kind, or a remote instance bound to [dev] that did not
    exist in [st] and is newer than the memoized remote one. *)
Definition resolved (st st' : State) (b : option backend_arg) (dev : option string)
    (k : VolumeBackend) (c : Control) : Prop :=
  cls c = class_of k /\
  if throwaway b k dev then
    bound_device c = dev /\ (next_oid st <= oid c /\ oid c < next_oid st') /\
    exists m, cell SPOTIFY st' = Some (Some m) /\ oid m < oid c
  else cell k st' = Some (Some c).

(** [steps st evs st']: from [st] to [st'] the events [evs] were logged, in
    that order; memo cells only filled up, no task handle was issued. *)
Record steps (st : State) (evs : list Event) (st' : State) : Prop := mkSteps {
  steps_oid : next_oid st <= next_oid st';
  steps_cell : forall k v, cell k st = Some v -> cell k st' = Some v;
  steps_backends : forall d, backends_cell st = Some d -> backends_cell st' = Some d;
  steps_optimal : forall o, optimal_cell st = Some o -> optimal_cell st' = Some o;
  steps_task : next_task st' = next_task st;
  steps_trace : trace st' = trace st ++ evs
}.

(** The write [change_volume] performs on instance [c] of kind [k]. *)
Definition write_event (k : VolumeBackend) (c : Control) (v : Z) (fd : bool) (fs : Z) : Event :=
  if VolumeBackend_eqb k SPOTIFY then SetVolume c v fd fs else SetMixer c v.

Definition write_result (k : VolumeBackend) (c : Control) (v : Z) : Returned :=
  if VolumeBackend_eqb k SPOTIFY then FromSetVolume c v else Level v.

(** Kinds whose instances [fade] treats as coroutines. *)
Definition nonblocking (k : VolumeBackend) : bool :=
  match k with
  | SPOTIFY | LINUX => true
  | _ => false
  end.

(** What [fade] schedules last on instance [c] of kind [k], and the handle
    it returns, [task] being the next free task handle. *)
Definition scheduled (k : VolumeBackend) (c : Control) (spec : FadeSpec)
    (blocking : bool) (task : nat) : Event :=
  if nonblocking k then
    if blocking then AwaitRamp c spec else CreateTask c spec task
  else RunInExecutor c spec.

Definition handle (k : VolumeBackend) (blocking : bool) (task : nat) : option nat :=
  if nonblocking k && negb blocking then Some task else None.

(** The device a remote instance resolved for [dev] is bound to. *)
Definition remote_device (dev : option string) : option string :=
  if truthy_str dev && negb (opt_str_eqb dev (device self)) then dev else device self.

End WithHost.

(** *** Genre playback *)

(** Keyword arguments of [fade], each present or not. *)
Record FadeArgs : Type := mkFadeArgs {
  fa_limit : option Z;
  fa_start : option Z;
  fa_step : option Z;
  fa_seconds : option Z;
  fa_force : option bool;
  fa_backend : option (option backend_arg);
  fa_spotify_volume : option Z;
  fa_blocking : option bool
}.

Definition or_else {A} (x y : option A) : option A :=
  match x with
  | Some _ => x
  | None => y
  end.

(** [{**config, **kwargs}]: a key of [kwargs] wins. *)
Definition merge (config kwargs : FadeArgs) : FadeArgs :=
  mkFadeArgs
    (or_else (fa_limit kwargs) (fa_limit config))
    (or_else (fa_start kwargs) (fa_start config))
    (or_else (fa_step kwargs) (fa_step config))
    (or_else (fa_seconds kwargs) (fa_seconds config))
    (or_else (fa_force kwargs) (fa_force config))
    (or_else (fa_backend kwargs) (fa_backend config))
    (or_else (fa_spotify_volume kwargs) (fa_spotify_volume config))
    (or_else (fa_blocking kwargs) (fa_blocking config)).

Definition default {A} (d : A) (x : option A) : A :=
  match x with
  | Some v => v
  | None => d
  end.

(** The dictionary [play_recommended_genre] returns; [playlist] stands for
    [playlist.to_dict()] and for the result of [playlist.play]. *)
Record GenreResult : Type := mkGenreResult {
  playing : bool;
  result_device : option string;
  result_playlist : nat
}.

Section Genre.

Variable h : Host.
Variable self : Session.

(** [config.volume.fade.up], the genres [top_genres] yields, and the
    catalog's answer to the n-th request for a genre and popularity tier
    ([None]: no playlist; a playlist is named by its number). *)
Variable up : FadeArgs.
Variable top_genres : list string.
Variable genre_playlist : string -> nat -> nat -> option nat.

Definition fade_up (dev : option string) (kwargs : FadeArgs) : M State unit :=
  let a := merge up kwargs in
  fade h self
    (default 50%Z (fa_limit a)) (default 0%Z (fa_start a)) (default 1%Z (fa_step a))
    (default 300%Z (fa_seconds a)) (default false (fa_force a))
    (default None (fa_backend a)) (default 100%Z (fa_spotify_volume a)) dev
    (default false (fa_blocking a)) ;;;
  ret tt.

Definition playlist_play (playlist : nat) (dev : option string) : M State unit :=
  fun st => (Return tt, log (PlaylistPlay playlist dev) st).

(** [while not playlist: playlist = self.genre_playlist(...)], [n] being
    the number of requests made so far.  [None]: the loop is still running
    after [fuel] more requests. *)
Fixpoint while_not_playlist (fuel : nat) (answer : nat -> option nat) (n : nat)
    (playlist : option nat) : option (nat * nat) :=
  match playlist with
  | Some p => Some (p, n)
  | None =>
      match fuel with
      | O => None
      | S fuel' => while_not_playlist fuel' answer (S n) (answer n)
      end
  end.

(** [popularity_pick] and [genre_pick] are the draws of [random.choice] and
    of [random(1)].  This is the coroutine of lines 207 to 226 as it is
    written; the [db_session] decorator of line 206 comes from module
    [cache], which is not among the sources, and is not modelled: the value
    returned here is the one the coroutine returns to it. *)
Definition play_recommended_genre (fuel : nat) (popularity_pick genre_pick : nat)
    (dev : option string) (fade_args : FadeArgs) (st : State)
  : option (outcome GenreResult * State) :=
  let popularity := Nat.modulo popularity_pick 3 in
  match top_genres with
  | [] => Some (Raise IndexError, st)
  | g0 :: _ =>
      let genre := nth (Nat.modulo genre_pick (List.length top_genres)) top_genres g0 in
      let playlist := genre_playlist genre popularity 0 in
      match while_not_playlist fuel (genre_playlist genre popularity) 1 playlist with
      | None => None
      | Some (playlist, _) =>
          Some ((fade_up dev fade_args ;;;
                 playlist_play playlist dev ;;;
                 ret (mkGenreResult true dev playlist)) st)
      end
  end.

End Genre.

(** *** Sequences of calls *)

(** The calls a user of the mixin makes on the volume surface. *)
Inductive call : Type :=
| CallBackend (b : option backend_arg) (dev : option string)
| CallChangeVolume (by_ : Z) (to : option Z) (b : option backend_arg)
    (dev : option string) (fade : bool) (fade_seconds : Z)
| CallFade (limit start step seconds : Z) (force : bool)
    (b : option backend_arg) (spotify_volume : Z) (dev : option string)
    (blocking : bool).

Section Calls.

Variable h : Host.
Variable self : Session.

(** The state a call leaves behind, whether it returns or raises. *)
Definition after (c : call) (st : State) : State :=
  match c with
  | CallBackend b dev => snd (backend h self b dev st)
  | CallChangeVolume by_ to b dev fd fs => snd (change_volume h self by_ to b dev fd fs st)
  | CallFade limit start step seconds force b spotify_volume dev blocking =>
      snd (fade h self limit start step seconds force b spotify_volume dev blocking st)
  end.

Definition run (cs : list call) (st : State) : State :=
  fold_left (fun s c => after c s) cs st.

(** [grows st st']: everything memoized or logged in [st] is still there
    in [st'], and no object id or task handle is reused. *)
Record grows (st st' : State) : Prop := mkGrows {
  grows_oid : next_oid st <= next_oid st';
  grows_task : next_task st <= next_task st';
  grows_cell : forall k v, cell k st = Some v -> cell k st' = Some v;
  grows_backends : forall d, backends_cell st = Some d -> backends_cell st' = Some d;
  grows_optimal : forall o, optimal_cell st = Some o -> optimal_cell st' = Some o;
  grows_trace : exists evs, trace st' = trace st ++ evs
}.

End Calls.

(** *** Keyword arguments *)

(** The Python values keyword arguments carry. *)
Inductive value : Type :=
| VNone
| VBool (b : bool)
| VInt (z : Z)
| VStr (s : string)
| VDict (d : list (string * value)).

Definition dict : Type := list (string * value).

Definition truthy (v : value) : bool :=
  match v with
  | VNone => false
  | VBool b => b
  | VInt z => negb (z =? 0)%Z
  | VStr s => negb (s =? "")%string
  | VDict [] => false
  | VDict (_ :: _) => true
  end.

(** [a or b]. *)
Definition value_or (a b : value) : value :=
  if truthy a then a else b.

Fixpoint lookup (k : string) (d : dict) : option value :=
  match d with
  | [] => None
  | (k', v) :: t => if (k' =? k)%string then Some v else lookup k t
  end.

(** [d.get(k)]: [None] when the key is missing. *)
Definition dict_get (k : string) (d : dict) : value :=
  match lookup k d with
  | Some v => v
  | None => VNone
  end.

(** [d[k] = v]: an existing key keeps its place, a new one goes last. *)
Fixpoint setitem (k : string) (v : value) (d : dict) : dict :=
  match d with
  | [] => [(k, v)]
  | (k', v') :: t =>
      if (k' =? k)%string then (k', v) :: t else (k', v') :: setitem k v t
  end.

(** [s[n:]]. *)
Fixpoint drop (n : nat) (s : string) : string :=
  match n, s with
  | O, _ => s
  | S n', String _ s' => drop n' s'
  | S _, EmptyString => EmptyString
  end.

Definition startswith (s prefix : string) : bool := String.prefix prefix s.

(** [{k[n:]: v for k, v in kwargs.items() if k.startswith(prefix)}]. *)
Definition stripped (prefix : string) (n : nat) (kwargs : dict) : dict :=
  fold_left
    (fun acc kv => if startswith (fst kv) prefix
                   then setitem (drop n (fst kv)) (snd kv) acc
                   else acc)
    kwargs [].

(** The value bound to [fade_args], in both playback functions. *)
Definition fade_args_of (kwargs : dict) : value :=
  value_or (dict_get "fade_args" kwargs) (VDict (stripped "fade_" 5 kwargs)).

(** The value bound to [recommendation_args], and that dictionary once
    [time_range] is stored in it ([None]: the value is no dictionary and
    the item assignment raises [TypeError]). *)
Definition recommendation_args_of (kwargs : dict) : value :=
  value_or (dict_get "recommendation_args" kwargs) (VDict (stripped "rec_" 4 kwargs)).

Definition with_time_range (time_range : value) (recommendation_args : value)
  : option dict :=
  match recommendation_args with
  | VDict d => Some (setitem "time_range" time_range d)
  | _ => None
  end.

End Player.

(** ** The synchronous wrapper ([spfy/wrapper.py]) *)

Module Wrapper.

(** What [get_device] returns: only its [id] is read. *)
Record Device : Type := mkDevice {
  id : option string
}.

(** The attributes set by [Spotify.__init__], and the device that
    [get_device(device=self.device_name)] finds. *)
Record Session : Type := mkSession {
  device_name : option string;
  alsa_device : option string;
  alsa_mixer : option string;
  audio_device : option string;
  found_device : Device
}.

Inductive Event : Type :=
| SetVolume (c : Control) (v : Z)
| SwitchAudioDevice (c : Control) (d : option string)
| ThreadStart (c : Control) (fade_args : list (string * Z))
| StartPlayback (tracks : list string) (device_id : option string).

Record State : Type := mkState {
  next_oid : nat;
  device_cell : option Device;
  applescript_cell : option (option Control);
  linux_cell : option (option Control);
  alsa_cell : option (option Control);
  spotify_cell : option Control;
  levels : Target -> Z;
  trace : list Event
}.

Definition set_next_oid (n : nat) (s : State) : State :=
  mkState n (device_cell s) (applescript_cell s) (linux_cell s) (alsa_cell s)
    (spotify_cell s) (levels s) (trace s).
Definition set_device_cell (v : Device) (s : State) : State :=
  mkState (next_oid s) (Some v) (applescript_cell s) (linux_cell s) (alsa_cell s)
    (spotify_cell s) (levels s) (trace s).
Definition set_applescript_cell (v : option Control) (s : State) : State :=
  mkState (next_oid s) (device_cell s) (Some v) (linux_cell s) (alsa_cell s)
    (spotify_cell s) (levels s) (trace s).
Definition set_linux_cell (v : option Control) (s : State) : State :=
  mkState (next_oid s) (device_cell s) (applescript_cell s) (Some v) (alsa_cell s)
    (spotify_cell s) (levels s) (trace s).
Definition set_alsa_cell (v : option Control) (s : State) : State :=
  mkState (next_oid s) (device_cell s) (applescript_cell s) (linux_cell s) (Some v)
    (spotify_cell s) (levels s) (trace s).
Definition set_spotify_cell (v : Control) (s : State) : State :=
  mkState (next_oid s) (device_cell s) (applescript_cell s) (linux_cell s) (alsa_cell s)
    (Some v) (levels s) (trace s).
Definition set_level (t : Target) (v : Z) (s : State) : State :=
  mkState (next_oid s) (device_cell s) (applescript_cell s) (linux_cell s) (alsa_cell s)
    (spotify_cell s) (fun t' => if Target_eqb t t' then v else levels s t') (trace s).
Definition log (e : Event) (s : State) : State :=
  mkState (next_oid s) (device_cell s) (applescript_cell s) (linux_cell s) (alsa_cell s)
    (spotify_cell s) (levels s) (trace s ++ [e]).

Definition fresh (lv : Target -> Z) : State :=
  mkState 0 None None None None None lv [].

Local Open Scope py_scope.

Section WithHost.

Variable h : Host.
Variable self : Session.

Definition new (c : Class) (d : option string) : M State Control :=
  fun st => (Return (mkControl (next_oid st) c d), set_next_oid (S (next_oid st)) st).

Definition construct (c : Class) (d : option string) : M State Control :=
  if constructor_raises h c then raise (ConstructorFailure c) else new c d.

(** Modelled from the spec: [get_device] of the client (module [client] is
    not among the sources) resolves a name or id to a device. *)
Definition get_device (name : option string) : M State Device :=
  ret (found_device self).

Definition _device : M State Device :=
  cached_property device_cell set_device_cell (get_device (device_name self)).

(** [os.uname] exists on Unix hosts only; on Windows, where [sys.platform]
    is ["win32"], the module has no such attribute.  The three platform
    properties below read [os.uname().sysname] as [sysname h]: they are
    those of a host that has [os.uname]. *)
Definition has_uname : bool := negb (platform h =? "win32")%string.

Definition _applescript_volume_control : M State (option Control) :=
  cached_property applescript_cell set_applescript_cell
    (if negb (sysname h =? "Darwin")%string then ret None
     else c <- construct ApplescriptVolumeControl None ;; ret (Some c)).

Definition _linux_volume_control : M State (option Control) :=
  cached_property linux_cell set_linux_cell
    (if negb (sysname h =? "Linux")%string then ret None
     else d <- _device ;;
          c <- construct LinuxVolumeControl (id d) ;; ret (Some c)).

Definition _alsa_volume_control : M State (option Control) :=
  cached_property alsa_cell set_alsa_cell
    (if negb (sysname h =? "Linux")%string then ret None
     else c <- construct AlsaVolumeControl None ;; ret (Some c)).

(** Modelled from the spec: the constructor of [SpotifyVolumeControl]
    (module [volume] is not among the sources); the remote backend is
    always constructible. *)
Definition _spotify_volume_control : M State Control :=
  cached_property spotify_cell set_spotify_cell
    (d <- _device ;; new SpotifyVolumeControl (id d)).

(** Modelled from the spec: the [volume] property of the classes of module
    [volume], as for the player mixin: reading returns the level of the
    control's target, writing stores the requested level clamped to
    [0, 100]. *)
Definition target_of (c : Control) : Target :=
  match cls c with
  | SpotifyVolumeControlAsync | SpotifyVolumeControl => Stream (bound_device c)
  | k => Mixer k
  end.

Definition get_volume (c : option Control) : M State Z :=
  match c with
  | None => raise (AttributeError "'NoneType' object has no attribute 'volume'")
  | Some c => fun st => (Return (levels st (target_of c)), st)
  end.

Definition set_volume (c : option Control) (v : Z) : M State unit :=
  match c with
  | None => raise (AttributeError "'NoneType' object has no attribute 'volume'")
  | Some c => fun st => (Return tt, log (SetVolume c v) (set_level (target_of c) (clamp v) st))
  end.

(** [backend in VolumeBackend or backend in [b.value for b in VolumeBackend]];
    a raw value is not a member of the enumeration itself, so for it the
    first test is false and the second decides. *)
Definition valid (backend : backend_arg) : bool :=
  match backend with
  | Member _ => true
  | Value s => false || existsb (fun k => (enum_value h k =? s)%string) members
  end.

(** [backend in (VolumeBackend.K, VolumeBackend.K.value)]. *)
Definition is_kind (backend : backend_arg) (k : VolumeBackend) : bool :=
  match backend with
  | Member k' => VolumeBackend_eqb k' k
  | Value s => (s =? enum_value h k)%string
  end.

Definition change_volume (value : Z) (backend : backend_arg) : M State (option Z) :=
  if negb (valid backend) then raise AssertionError
  else if is_kind backend ALSA then
    c <- _alsa_volume_control ;;
    v <- get_volume c ;;
    let volume := (v + value)%Z in
    c' <- _alsa_volume_control ;;
    set_volume c' volume ;;;
    ret (Some volume)
  else if is_kind backend APPLESCRIPT then
    c <- _applescript_volume_control ;;
    v <- get_volume c ;;
    let volume := (v + value)%Z in
    c' <- _applescript_volume_control ;;
    set_volume c' volume ;;;
    ret (Some volume)
  else if is_kind backend SPOTIFY then
    c <- _spotify_volume_control ;;
    v <- get_volume (Some c) ;;
    let volume := (v + value)%Z in
    c' <- _spotify_volume_control ;;
    set_volume (Some c') volume ;;;
    ret (Some volume)
  else ret None.

Definition volume_up (backend : backend_arg) : M State (option Z) :=
  change_volume 1 backend.

Definition volume_down (backend : backend_arg) : M State (option Z) :=
  change_volume (-1) backend.

Definition switch_audio_device (c : option Control) (d : option string) : M State unit :=
  match c with
  | None => raise (AttributeError "'NoneType' object has no attribute 'switch_audio_device'")
  | Some c => fun st => (Return tt, log (SwitchAudioDevice c d) st)
  end.

Definition thread_start (target : Control) (fade_args : list (string * Z)) : M State unit :=
  fun st => (Return tt, log (ThreadStart target fade_args) st).

(** What [start_playback] is called with; its result stands for the
    remote result. *)
Definition start_playback (tracks : list string) (device_id : option string)
  : M State (list string * option string) :=
  fun st => (Return (tracks, device_id), log (StartPlayback tracks device_id) st).

(** Python's [a or b] on device ids. *)
Definition py_or (a b : option string) : option string :=
  if truthy_str a then a else b.

(** [property.fade]: the bound method of the instance a property holds. *)
Definition fade_of (property : M State (option Control)) : M State Control :=
  c <- property ;;
  match c with
  | Some c => ret c
  | None => raise (AttributeError "'NoneType' object has no attribute 'fade'")
  end.

Definition play (tracks : list string) (device_id : option string) (fade : bool)
    (volume : Z) (fade_args : list (string * Z))
  : M State (list string * option string) :=
  (if fade then
     a <- _applescript_volume_control ;;
     if truthy_ctl a then
       target <- fade_of _applescript_volume_control ;;
       (if truthy_str (audio_device self) then
          a' <- _applescript_volume_control ;;
          switch_audio_device a' (audio_device self)
        else ret tt) ;;;
       thread_start target fade_args
     else
       l <- _linux_volume_control ;;
       if truthy_ctl l then
         target <- fade_of _linux_volume_control ;;
         sp <- _spotify_volume_control ;;
         set_volume (Some sp) volume ;;;
         thread_start target fade_args
       else
         al <- _alsa_volume_control ;;
         if truthy_ctl al then
           target <- fade_of _alsa_volume_control ;;
           sp <- _spotify_volume_control ;;
           set_volume (Some sp) volume ;;;
           thread_start target fade_args
         else
           target <- _spotify_volume_control ;;
           thread_start target fade_args
   else ret tt) ;;;
  d <- _device ;;
  start_playback tracks (py_or (id d) device_id).

(** The device the session is bound to: the memoized one, else the one
    [get_device] will find. *)
Definition session_device (st : State) : Device :=
  match device_cell st with
  | Some d => d
  | None => found_device self
  end.

(** [runs st st']: from [st] to [st'] the session stayed bound to the same
    device and the trace only grew. *)
Definition runs (st st' : State) : Prop :=
  session_device st' = session_device st /\
  exists evs, trace st' = trace st ++ evs.

Definition preserves {A} (m : M State A) : Prop :=
  forall st r st', m st = (r, st') -> runs st st'.

(** [consistent st]: what is memoized in [st] is what the properties
    store on this host: [None] off the platform, else an instance of the
    property's class whose constructor does not raise here. *)
Definition held (v : option Control) (os : string) (c : Class) : Prop :=
  match v with
  | None => (sysname h =? os)%string = false
  | Some i => (sysname h =? os)%string = true /\ cls i = c /\
              constructor_raises h c = false
  end.

Record consistent (st : State) : Prop := mkConsistent {
  consistent_applescript :
    forall v, applescript_cell st = Some v -> held v "Darwin" ApplescriptVolumeControl;
  consistent_linux :
    forall v, linux_cell st = Some v -> held v "Linux" LinuxVolumeControl;
  consistent_alsa :
    forall v, alsa_cell st = Some v -> held v "Linux" AlsaVolumeControl;
  consistent_spotify :
    forall c, spotify_cell st = Some c -> cls c = SpotifyVolumeControl
}.

(** The calls a user of the wrapper makes, and the state each leaves
    behind, whether it returns or raises. *)
Inductive call : Type :=
| CallChangeVolume (value : Z) (backend : backend_arg)
| CallPlay (tracks : list string) (device_id : option string) (fade : bool)
    (volume : Z) (fade_args : list (string * Z)).

Definition after (c : call) (st : State) : State :=
  match c with
  | CallChangeVolume value backend => snd (change_volume value backend st)
  | CallPlay tracks device_id fade volume fade_args =>
      snd (play tracks device_id fade volume fade_args st)
  end.

Definition run (cs : list call) (st : State) : State :=
  fold_left (fun s c => after c s) cs st.

End WithHost.

End Wrapper.

(** ** Concrete hosts and sessions *)

Module Sample.

Definition names (k : VolumeBackend) : string :=
  match k with
  | APPLESCRIPT => "applescript"
  | LINUX => "linux"
  | ALSA => "alsa"
  | SPOTIFY => "spotify"
  end.

(** A Linux host with a working ALSA mixer on which the composite Linux
    control cannot be built. *)
Definition linux_host : Host :=
  mkHost "linux" "Linux" names
    (fun c => match c with
              | LinuxVolumeControl | LinuxVolumeControlAsync => true
              | _ => false
              end).

(** A Linux host on which every constructor succeeds. *)
Definition sound_linux_host : Host :=
  mkHost "linux" "Linux" names (fun _ => false).

(** A Unix host that is neither macOS nor Linux: FreeBSD. *)
Definition other_host : Host :=
  mkHost "freebsd13" "FreeBSD" names (fun _ => false).

Definition player_session : Player.Session :=
  Player.mkSession (Some "A"%string) None None None.

Definition wrapper_session : Wrapper.Session :=
  Wrapper.mkSession (Some "A"%string) None None None
    (Wrapper.mkDevice (Some "id-A"%string)).

Definition half (t : Target) : Z := 50%Z.

Definition up : Player.FadeArgs :=
  Player.mkFadeArgs (Some 80%Z) None None (Some 5%Z) None None None None.

Definition no_args : Player.FadeArgs :=
  Player.mkFadeArgs None None None None None None None None.

Definition genres : list string := ["rock"%string].

(** A catalog that has no playlist at the first two requests and playlist 7
    from the third on. *)
Definition catalog (genre : string) (popularity n : nat) : option nat :=
  if 2 <=? n then Some 7 else None.

(** A macOS host. *)
Definition mac_host : Host :=
  mkHost "darwin" "Darwin" names (fun _ => false).

Definition keyword_arguments : Player.dict :=
  [("fade_limit"%string, Player.VInt 80);
   ("rec_limit"%string, Player.VInt 20);
   ("fade_args"%string, Player.VDict [])].

(** A fade configuration naming the composite Linux backend. *)
Definition up_on_linux : Player.FadeArgs :=
  Player.mkFadeArgs (Some 80%Z) None None (Some 5%Z) None
    (Some (Some (Value "linux"))) None None.

Definition some_calls : list Player.call :=
  [Player.CallChangeVolume 1 None (Some (Value "linux")) None false 5;
   Player.CallFade 50 0 1 300 false None 100 (Some "B"%string) false;
   Player.CallBackend (Some (Member SPOTIFY)) (Some "B"%string)].

Definition some_wrapper_calls : list Wrapper.call :=
  [Wrapper.CallPlay ["track"%string] None true 80 [];
   Wrapper.CallChangeVolume 1 (Value "alsa");
   Wrapper.CallPlay ["track"%string] None false 80 []].

End Sample.

(** * Running a sequence *)

Lemma bind_return {S A B} (m : M S A) (k : A -> M S B) (st st' : S) (a : A) :
  m st = (Return a, st') -> bind m k st = k a st'.
Proof. intros E. unfold bind. now rewrite E. Qed.

Lemma bind_raise {S A B} (m : M S A) (k : A -> M S B) (st st' : S) (e : exn) :
  m st = (Raise e, st') -> bind m k st = (Raise e, st').
Proof. intros E. unfold bind. now rewrite E. Qed.

Lemma bind_inv {S A B} (m : M S A) (k : A -> M S B) (st st' : S) (b : B) :
  bind m k st = (Return b, st') ->
  exists a s1, m st = (Return a, s1) /\ k a s1 = (Return b, st').
Proof.
  unfold bind. destruct (m st) as [[a|e] s1]; [eauto | discriminate].
Qed.

(** * Properties of the player mixin *)

Section PlayerFacts.

Import Player.

Variable h : Host.
Variable self : Session.

Abbreviation wf := (Player.wf h self).
Abbreviation entry_ok := (Player.entry_ok h self).

Lemma ext_refl (st : State) : ext st st.
Proof. constructor; auto. Qed.

Lemma ext_trans (a b c : State) : ext a b -> ext b c -> ext a c.
Proof.
  intros [o1 c1 b1 p1 l1 t1 r1] [o2 c2 b2 p2 l2 t2 r2].
  constructor; auto; try congruence. now transitivity (next_oid b).
Qed.

Lemma entry_ok_mono (n m : nat) (k : VolumeBackend) (v : option Control) :
  n <= m -> entry_ok n k v -> entry_ok m k v.
Proof.
  unfold Player.entry_ok. destruct v as [c|]; auto.
  intros L (A & B & C & D). repeat split; auto. lia.
Qed.

Lemma fresh_wf (lv : Target -> Z) : wf (fresh lv).
Proof.
  constructor; unfold fresh; simpl.
  - intros [] v; simpl; discriminate.
  - discriminate.
  - discriminate.
Qed.

(** Closes the side conditions on a state reached by one memoization. *)
Ltac use_none :=
  repeat match goal with
         | H : ?x = None, H' : context [?x] |- _ => rewrite H in H'
         end.

Ltac frame W :=
  let k := fresh "k" in
  let v := fresh "v" in
  let E := fresh "E" in
  first
    [ apply ext_refl
    | constructor; simpl; auto;
      intros k v E; destruct k; simpl in *; use_none; simpl in *; congruence ].

Ltac kept W st0 :=
  match goal with
  | |- Player.wf _ _ _ =>
      constructor; simpl;
      [ let k := fresh "k" in
        let v := fresh "v" in
        let E := fresh "E" in
        intros k v E;
        destruct k; simpl in E;
        first
          [ apply entry_ok_mono with (n := next_oid st0);
            [ simpl; lia | apply (wf_cell W); exact E ]
          | injection E as <-; simpl; repeat split; auto; try lia ]
      | let d := fresh "d" in
        let E := fresh "E" in
        intros d E;
        destruct (wf_backends W E) as (? & ? & ? & ? & ? & ? & ? & ? & ?);
        simpl in *; use_none; simpl in *; congruence
      | let o := fresh "o" in
        let E := fresh "E" in
        intros o E;
        destruct (wf_optimal W E) as (? & E' & ?);
        destruct (wf_backends W E') as (? & ? & ? & ? & ? & ? & ? & ? & ?);
        simpl in *; use_none; simpl in *; congruence ]
  end.

Lemma applescript_spec (st : State) :
  wf st ->
  exists v st', _applescript_volume_control h st = (Return v, st') /\
                wf st' /\ ext st st' /\ cell APPLESCRIPT st' = Some v.
Proof.
  intros W. unfold _applescript_volume_control, cached_property.
  destruct (applescript_cell st) as [v|] eqn:C.
  - exists v, st. split; [reflexivity | split; [exact W | split; [apply ext_refl | exact C]]].
  - unfold try_except, construct, bind, ret, raise, new.
    destruct (platform h =? "darwin")%string eqn:P; simpl.
    + destruct (constructor_raises h ApplescriptVolumeControl) eqn:R; simpl;
        eexists; eexists; (split; [reflexivity|]); (split; [|split]);
        try reflexivity; try frame W; kept W st;
        unfold available; rewrite P, R; reflexivity.
    + eexists; eexists; (split; [reflexivity|]); (split; [|split]);
        try reflexivity; try frame W; kept W st;
        unfold available; rewrite P; reflexivity.
Qed.

Lemma linux_spec (st : State) :
  wf st ->
  exists v st', _linux_volume_control h self st = (Return v, st') /\
                wf st' /\ ext st st' /\ cell LINUX st' = Some v.
Proof.
  intros W. unfold _linux_volume_control, cached_property.
  destruct (linux_cell st) as [v|] eqn:C.
  - exists v, st. split; [reflexivity | split; [exact W | split; [apply ext_refl | exact C]]].
  - unfold try_except, construct, bind, ret, raise, new.
    destruct (platform h =? "linux")%string eqn:P; simpl.
    + destruct (constructor_raises h LinuxVolumeControlAsync) eqn:R; simpl;
        eexists; eexists; (split; [reflexivity|]); (split; [|split]);
        try reflexivity; try frame W; kept W st;
        unfold available; rewrite P, R; reflexivity.
    + eexists; eexists; (split; [reflexivity|]); (split; [|split]);
        try reflexivity; try frame W; kept W st;
        unfold available; rewrite P; reflexivity.
Qed.

Lemma alsa_spec (st : State) :
  wf st ->
  exists v st', _alsa_volume_control h st = (Return v, st') /\
                wf st' /\ ext st st' /\ cell ALSA st' = Some v.
Proof.
  intros W. unfold _alsa_volume_control, cached_property.
  destruct (alsa_cell st) as [v|] eqn:C.
  - exists v, st. split; [reflexivity | split; [exact W | split; [apply ext_refl | exact C]]].
  - unfold try_except, construct, bind, ret, raise, new.
    destruct (platform h =? "linux")%string eqn:P; simpl.
    + destruct (constructor_raises h AlsaVolumeControl) eqn:R; simpl;
        eexists; eexists; (split; [reflexivity|]); (split; [|split]);
        try reflexivity; try frame W; kept W st;
        unfold available; rewrite P, R; reflexivity.
    + eexists; eexists; (split; [reflexivity|]); (split; [|split]);
        try reflexivity; try frame W; kept W st;
        unfold available; rewrite P; reflexivity.
Qed.

Lemma spotify_spec (st : State) :
  wf st ->
  exists c st', _spotify_volume_control self st = (Return c, st') /\
                wf st' /\ ext st st' /\ cell SPOTIFY st' = Some (Some c).
Proof.
  intros W. unfold _spotify_volume_control, cached_property.
  destruct (spotify_cell st) as [c|] eqn:C.
  - exists c, st. split; [reflexivity | split; [exact W | split; [apply ext_refl|]]].
    simpl. now rewrite C.
  - unfold construct_remote, new.
    eexists; eexists; (split; [reflexivity|]); (split; [|split]);
      try reflexivity; try frame W; kept W st.
Qed.

(** An allocation outside the memo cells keeps the session well formed. *)
Lemma construct_remote_spec (d : option string) (st : State) :
  wf st ->
  exists st', construct_remote d st =
                (Return (mkControl (next_oid st) SpotifyVolumeControlAsync d), st') /\
              wf st' /\ ext st st' /\ next_oid st' = S (next_oid st).
Proof.
  intros W. unfold construct_remote, new.
  eexists; (split; [reflexivity|]); (split; [|split]);
    try reflexivity; try frame W.
  constructor; simpl.
  - intros k v E. apply entry_ok_mono with (n := next_oid st); [lia|].
    apply (wf_cell W). destruct k; exact E.
  - exact (wf_backends W).
  - exact (wf_optimal W).
Qed.

Lemma table_unique (st : State) (a l al a' l' al' : option Control) (s s' : Control) :
  cell APPLESCRIPT st = Some a -> cell LINUX st = Some l ->
  cell ALSA st = Some al -> cell SPOTIFY st = Some (Some s) ->
  cell APPLESCRIPT st = Some a' -> cell LINUX st = Some l' ->
  cell ALSA st = Some al' -> cell SPOTIFY st = Some (Some s') ->
  table a l al s = table a' l' al' s'.
Proof.
  simpl. destruct (spotify_cell st); simpl; [|discriminate].
  intros. unfold table. congruence.
Qed.

Lemma backends_spec (st : State) :
  wf st ->
  exists d st', _backends h self st = (Return d, st') /\
                wf st' /\ ext st st' /\ backends_cell st' = Some d.
Proof.
  intros W. unfold _backends, cached_property.
  destruct (backends_cell st) as [d|] eqn:C.
  - exists d, st. split; [reflexivity | split; [exact W | split; [apply ext_refl | exact C]]].
  - unfold bind.
    destruct (applescript_spec W) as (a & s1 & -> & W1 & X1 & C1).
    destruct (linux_spec W1) as (l & s2 & -> & W2 & X2 & C2).
    destruct (alsa_spec W2) as (al & s3 & -> & W3 & X3 & C3).
    destruct (spotify_spec W3) as (s & s4 & -> & W4 & X4 & C4).
    unfold ret.
    assert (A4 : cell APPLESCRIPT s4 = Some a)
      by (apply (ext_cell X4), (ext_cell X3), (ext_cell X2); exact C1).
    assert (L4 : cell LINUX s4 = Some l)
      by (apply (ext_cell X4), (ext_cell X3); exact C2).
    assert (AL4 : cell ALSA s4 = Some al) by (apply (ext_cell X4); exact C3).
    eexists; eexists; split; [reflexivity|]. split; [|split].
    + constructor; simpl.
      * intros k v E. apply (wf_cell W4). destruct k; exact E.
      * intros d E. injection E as <-. exists a, l, al, s. auto.
      * intros o E. destruct (wf_optimal W4 E) as (d' & E' & ->).
        destruct (wf_backends W4 E') as (a' & l' & al' & s' & Ea & El & Eal & Es & ->).
        eexists; split; [reflexivity|].
        f_equal. f_equal. apply (@table_unique s4); assumption.
    + apply ext_trans with s4;
        [ eauto using ext_trans | constructor; simpl; auto ].
      intros d E.
      destruct (wf_backends W4 E) as (a' & l' & al' & s' & Ea & El & Eal & Es & ->).
      f_equal. apply (@table_unique s4); assumption.
    + reflexivity.
Qed.

Lemma optimal_spec (st : State) :
  wf st ->
  exists o st', _optimal_backend h self st = (Return o, st') /\
                wf st' /\ ext st st' /\ optimal_cell st' = Some o /\
                exists d, backends_cell st' = Some d /\ o = first (values d).
Proof.
  intros W. unfold _optimal_backend, cached_property.
  destruct (optimal_cell st) as [o|] eqn:C.
  - exists o, st. split; [reflexivity | split; [exact W | split; [apply ext_refl|]]].
    split; [exact C | exact (wf_optimal W C)].
  - unfold bind. destruct (backends_spec W) as (d & s1 & -> & W1 & X1 & C1).
    unfold ret. eexists; eexists; split; [reflexivity|].
    split; [|split; [|split; [reflexivity|exists d; split; [exact C1|reflexivity]]]].
    + constructor; simpl.
      * intros k v E. apply (wf_cell W1). destruct k; exact E.
      * exact (wf_backends W1).
      * intros o E. injection E as <-. exists d. auto.
    + apply ext_trans with s1; [exact X1 | constructor; simpl; auto].
      intros o E. destruct (wf_optimal W1 E) as (d' & E' & ->). congruence.
Qed.

(** [first] over the table of a well-formed session picks the entry of
    the first available kind in priority order. *)
Lemma first_of_table (n : nat) (a l al : option Control) (s : Control) :
  entry_ok n APPLESCRIPT a -> entry_ok n LINUX l -> entry_ok n ALSA al ->
  entry_ok n SPOTIFY (Some s) ->
  exists c k,
    first (values (table a l al s)) = Some c /\
    find (available h) priority = Some k /\
    getitem (table a l al s) k = Return (Some c) /\
    cls c = class_of k.
Proof.
  intros Ha Hl Hal Hs. unfold priority. cbn [find].
  destruct a as [ca|]; unfold Player.entry_ok in Ha.
  { destruct Ha as (A & K & _). rewrite A. exists ca, APPLESCRIPT. auto. }
  rewrite Ha.
  destruct l as [cl|]; unfold Player.entry_ok in Hl.
  { destruct Hl as (A & K & _). rewrite A. exists cl, LINUX. auto. }
  rewrite Hl.
  destruct al as [cal|]; unfold Player.entry_ok in Hal.
  { destruct Hal as (A & K & _). rewrite A. exists cal, ALSA. auto. }
  rewrite Hal.
  destruct Hs as (A & K & _). exists s, SPOTIFY. auto.
Qed.

Lemma table_lookup (n : nat) (a l al : option Control) (s : Control) (k : VolumeBackend) :
  entry_ok n APPLESCRIPT a -> entry_ok n LINUX l -> entry_ok n ALSA al ->
  entry_ok n SPOTIFY (Some s) ->
  exists v, getitem (table a l al s) k = Return v /\ entry_ok n k v.
Proof.
  intros Ha Hl Hal Hs. destruct k; cbn; eauto.
Qed.

Lemma class_of_inj (k k' : VolumeBackend) : class_of k = class_of k' -> k = k'.
Proof. destruct k, k'; simpl; congruence. Qed.

(** C1.  On every host and from every well-formed session state,
    [_optimal_backend] returns an instance (never [None]): the entry that
    [_backends] holds for the first kind, in the order APPLESCRIPT, LINUX,
    ALSA, SPOTIFY, that is available on the host.  Every kind that is not
    available is held as [None] and is not the one selected, and when no
    local kind is available the selected kind is SPOTIFY. *)
Theorem default_backend_first_available (st : State) :
  wf st ->
  exists c k d st',
    _optimal_backend h self st = (Return (Some c), st') /\
    find (available h) priority = Some k /\
    backends_cell st' = Some d /\
    getitem d k = Return (Some c) /\
    cls c = class_of k /\
    (forall k', available h k' = false ->
                getitem d k' = Return None /\ cls c <> class_of k') /\
    (available h APPLESCRIPT = false -> available h LINUX = false ->
     available h ALSA = false -> k = SPOTIFY).
Proof.
  intros W.
  destruct (optimal_spec W) as (o & st' & E & W' & X & C & d & D & ->).
  destruct (wf_backends W' D) as (a & l & al & s & Ca & Cl & Cal & Cs & ->).
  pose proof (wf_cell W' _ Ca) as Ha.
  pose proof (wf_cell W' _ Cl) as Hl.
  pose proof (wf_cell W' _ Cal) as Hal.
  pose proof (wf_cell W' _ Cs) as Hs.
  destruct (@first_of_table _ _ _ _ _ Ha Hl Hal Hs) as (c & k & F & K & G & Cl').
  exists c, k, (table a l al s), st'.
  rewrite E, F. repeat (split; [first [reflexivity | assumption]|]).
  assert (Av : available h k = true) by (apply find_some in K; tauto).
  split.
  - intros k' A'. split.
    + destruct (@table_lookup _ _ _ _ _ k' Ha Hl Hal Hs) as (v & -> & Hv).
      destruct v as [cv|]; [|reflexivity].
      destruct Hv as (A & _). congruence.
    + intros Eq. rewrite Cl' in Eq. apply class_of_inj in Eq. congruence.
  - intros A1 A2 A3. unfold priority in K. cbn [find] in K.
    rewrite A1, A2, A3 in K. cbn in K. congruence.
Qed.

Lemma getitem_cell (st : State) (a l al : option Control) (s : Control)
    (k : VolumeBackend) (v : option Control) :
  cell APPLESCRIPT st = Some a -> cell LINUX st = Some l ->
  cell ALSA st = Some al -> cell SPOTIFY st = Some (Some s) ->
  getitem (table a l al s) k = Return v -> cell k st = Some v.
Proof.
  intros Ca Cl Cal Cs. destruct k; cbn; intros [= <-]; assumption.
Qed.

Lemma chosen_falsy (b : option backend_arg) :
  truthy_arg b = false -> chosen h b = Return (default_kind h).
Proof.
  intros T. unfold chosen. destruct b as [arg|]; [rewrite T|]; reflexivity.
Qed.

Lemma throwaway_falsy (b : option backend_arg) (k : VolumeBackend) (dev : option string) :
  truthy_arg b = false -> throwaway self b k dev = false.
Proof. intros T. unfold throwaway. now rewrite T. Qed.

(** The stateful resolution computes the pure choice [chosen]: it raises
    exactly the exception [chosen] names, and otherwise hands out an
    instance of the chosen kind, touching nothing but memo cells and the
    allocator. *)
Lemma backend_result (b : option backend_arg) (dev : option string) (st : State) :
  wf st ->
  exists st', wf st' /\ ext st st' /\
    match chosen h b with
    | Raise e => backend h self b dev st = (Raise e, st')
    | Return k => exists c, backend h self b dev st = (Return (Some c), st') /\
                            resolved self st st' b dev k c
    end.
Proof.
  intros W. destruct (truthy_arg b) eqn:T.
  - destruct b as [arg|]; [|discriminate].
    unfold backend, chosen. rewrite T. cbn [negb].
    destruct (backends_spec W) as (d & s1 & E & W1 & X1 & C1).
    destruct (wf_backends W1 C1) as (a & l & al & s & Ca & Cl & Cal & Cs & ->).
    pose proof (wf_cell W1 _ Ca) as Ha.
    pose proof (wf_cell W1 _ Cl) as Hl.
    pose proof (wf_cell W1 _ Cal) as Hal.
    pose proof (wf_cell W1 _ Cs) as Hs.
    erewrite bind_return by exact E.
    destruct (VolumeBackend_of h arg) as [k|e].
    2:{ exists s1. auto. }
    erewrite bind_return by reflexivity.
    destruct (@table_lookup _ _ _ _ _ k Ha Hl Hal Hs) as (v & G & Hv).
    erewrite bind_return by (unfold lift; rewrite G; reflexivity).
    destruct v as [m|]; cbn [truthy_ctl negb].
    + destruct Hv as (A & K & O & B). rewrite A.
      assert (Q : isinstance (Some m) [SpotifyVolumeControlAsync] = VolumeBackend_eqb k SPOTIFY).
      { cbn. rewrite K. destruct k; reflexivity. }
      rewrite Q.
      destruct (VolumeBackend_eqb k SPOTIFY && truthy_str dev
                && negb (opt_str_eqb dev (device self))) eqn:F.
      * destruct (construct_remote_spec dev W1) as (s2 & E2 & W2 & X2 & N2).
        exists s2. split; [exact W2|]. split; [eauto using ext_trans|].
        eexists. erewrite bind_return by exact E2. split; [reflexivity|].
        assert (k = SPOTIFY) as -> by (destruct k; cbn in F; congruence).
        split; [reflexivity|]. unfold throwaway. rewrite T. cbn [andb] in *. rewrite F.
        cbn. split; [reflexivity|]. split; [destruct X1; lia|].
        exists s. split; [exact (ext_cell X2 SPOTIFY Cs)|].
        destruct Hs as (_ & _ & Os & _). exact Os.
      * exists s1. split; [exact W1|]. split; [exact X1|].
        exists m. split; [reflexivity|]. split; [exact K|].
        unfold throwaway. rewrite T. cbn [andb] in *. rewrite F.
        eapply getitem_cell; eauto.
    + cbn in Hv. rewrite Hv. exists s1. auto.
  - unfold backend. rewrite T. cbn [negb]. rewrite (chosen_falsy _ T).
    destruct (optimal_spec W) as (o & st' & E & W' & X & C & d & D & ->).
    destruct (wf_backends W' D) as (a & l & al & s & Ca & Cl & Cal & Cs & ->).
    pose proof (wf_cell W' _ Ca) as Ha.
    pose proof (wf_cell W' _ Cl) as Hl.
    pose proof (wf_cell W' _ Cal) as Hal.
    pose proof (wf_cell W' _ Cs) as Hs.
    destruct (@first_of_table _ _ _ _ _ Ha Hl Hal Hs) as (c & k & F & K & G & Cl').
    exists st'. split; [exact W'|]. split; [exact X|].
    exists c. rewrite E, F. split; [reflexivity|].
    unfold default_kind. rewrite K. split; [exact Cl'|].
    rewrite (throwaway_falsy _ _ _ T). eapply getitem_cell; eauto.
Qed.

(** C2.  Naming a kind that is not available on the host (its constructor
    raised, or it targets another platform) makes [backend] raise the
    error "Backend None is not available on this system": no instance of
    any kind is handed out.  [change_volume] through that resolution raises
    the same error, and in the state it leaves behind no level has changed
    and nothing was written or scheduled. *)
Theorem named_absent_backend_raises (arg : backend_arg) (k : VolumeBackend)
    (dev : option string) (by_ : Z) (to : option Z) (fd : bool) (fs : Z) (st : State) :
  wf st ->
  truthy_arg (Some arg) = true ->
  VolumeBackend_of h arg = Return k ->
  available h k = false ->
  exists st',
    backend h self (Some arg) dev st =
      (Raise (ValueError "Backend None is not available on this system"), st') /\
    change_volume h self by_ to (Some arg) dev fd fs st =
      (Raise (ValueError "Backend None is not available on this system"), st') /\
    trace st' = trace st /\ levels st' = levels st /\ next_task st' = next_task st.
Proof.
  intros W T V A.
  destruct (backend_result (Some arg) dev W) as (st' & W' & X & R).
  unfold chosen in R. rewrite T, V, A in R.
  exists st'. split; [exact R|]. split.
  - unfold change_volume. erewrite bind_raise by exact R. reflexivity.
  - destruct X. auto.
Qed.

Lemma opt_str_eqb_true (a b : option string) : opt_str_eqb a b = true <-> a = b.
Proof.
  destruct a as [x|], b as [y|]; simpl; try (split; congruence).
  rewrite String.eqb_eq. split; congruence.
Qed.

Lemma opt_str_eqb_false (a b : option string) : opt_str_eqb a b = false <-> a <> b.
Proof.
  rewrite <- opt_str_eqb_true. destruct (opt_str_eqb a b); split; congruence.
Qed.

Lemma memo_kept (k : VolumeBackend) (st st' : State) (c : Control) :
  ext st st' -> cell k st' = Some (Some c) ->
  forall v, cell k st = Some v -> v = Some c.
Proof.
  intros X C v E. apply (ext_cell X) in E. congruence.
Qed.

(** C5.  Resolving the remote kind for a device that is given and differs
    from the session's device returns an instance bound to that device that
    did not exist before the call and whose identity differs from the
    memoized remote instance; resolving it for the session's own device
    returns the memoized instance; resolving an available non-remote kind
    returns that kind's memoized instance whatever the device.  In each
    case an instance memoized before the call is the one that stays
    memoized. *)
Theorem resolve_remote_identity (arg : backend_arg) (k : VolumeBackend)
    (dev : option string) (st : State) :
  wf st ->
  truthy_arg (Some arg) = true ->
  VolumeBackend_of h arg = Return k ->
  (k = SPOTIFY -> truthy_str dev = true -> dev <> device self ->
   exists c m st',
     backend h self (Some arg) dev st = (Return (Some c), st') /\
     spotify_cell st' = Some m /\
     oid c <> oid m /\ next_oid st <= oid c /\
     cls c = SpotifyVolumeControlAsync /\ bound_device c = dev /\
     (forall m0, spotify_cell st = Some m0 -> m0 = m)) /\
  (k = SPOTIFY -> dev = device self ->
   exists m st',
     backend h self (Some arg) dev st = (Return (Some m), st') /\
     spotify_cell st' = Some m /\
     (forall m0, spotify_cell st = Some m0 -> m0 = m)) /\
  (k <> SPOTIFY -> available h k = true ->
   exists m st',
     backend h self (Some arg) dev st = (Return (Some m), st') /\
     cell k st' = Some (Some m) /\
     (forall v, cell k st = Some v -> v = Some m)).
Proof.
  intros W T V.
  destruct (backend_result (Some arg) dev W) as (st' & W' & X & R).
  unfold chosen in R. rewrite T, V in R.
  assert (SP : forall m, cell SPOTIFY st' = Some (Some m) ->
                         spotify_cell st' = Some m /\
                         forall m0, spotify_cell st = Some m0 -> m0 = m).
  { intros m C. split.
    - simpl in C. destruct (spotify_cell st'); simpl in C; congruence.
    - intros m0 E0.
      assert (Some m0 = Some m) by
        (apply (@memo_kept SPOTIFY st st' m X C); simpl; now rewrite E0).
      congruence. }
  split; [|split].
  - intros -> D N. cbn in R. destruct R as (c & R & K & F).
    unfold throwaway in F. rewrite T, D in F.
    apply opt_str_eqb_false in N. rewrite N in F. cbn in F.
    destruct F as (B & (L1 & L2) & m & C & O).
    destruct (SP m C) as (C' & U).
    exists c, m, st'. repeat (split; [first [assumption | lia]|]). exact U.
  - intros -> D. cbn in R. destruct R as (c & R & K & F).
    unfold throwaway in F.
    apply opt_str_eqb_true in D. rewrite D in F.
    rewrite !andb_false_r in F.
    destruct (SP c F) as (C' & U).
    exists c, st'. auto.
  - intros N A. rewrite A in R. destruct R as (c & R & K & F).
    unfold throwaway in F.
    assert (Q : VolumeBackend_eqb k SPOTIFY = false) by (destruct k; auto; congruence).
    rewrite Q in F. rewrite andb_false_r in F. cbn in F.
    exists c, st'. split; [exact R|]. split; [exact F|].
    exact (@memo_kept k st st' c X F).
Qed.

Lemma ext_steps (st st' : State) : ext st st' -> steps st [] st'.
Proof.
  intros [o c b p l t r]. constructor; auto. now rewrite app_nil_r.
Qed.

Lemma steps_trans (a b c : State) (e1 e2 : list Event) :
  steps a e1 b -> steps b e2 c -> steps a (e1 ++ e2) c.
Proof.
  intros [o1 c1 b1 p1 t1 r1] [o2 c2 b2 p2 t2 r2].
  constructor; auto; try congruence.
  - now transitivity (next_oid b).
  - rewrite r2, r1. now rewrite app_assoc.
Qed.

Lemma written_wf (e : Event) (t : Target) (v : Z) (st : State) :
  wf st -> wf (log e (set_level t v st)).
Proof.
  intros W. constructor; simpl.
  - intros k u E. apply (wf_cell W). destruct k; exact E.
  - exact (wf_backends W).
  - exact (wf_optimal W).
Qed.

Lemma written_steps (e : Event) (t : Target) (v : Z) (st : State) :
  steps st [e] (log e (set_level t v st)).
Proof.
  constructor; simpl; auto.
Qed.

Lemma set_level_read (t : Target) (v : Z) (e : Event) (st : State) :
  levels (log e (set_level t v st)) t = v.
Proof.
  simpl. destruct t as [c|d]; simpl.
  - destruct c; reflexivity.
  - destruct d as [x|]; simpl; [now rewrite String.eqb_refl | reflexivity].
Qed.

Lemma class_is_remote (k : VolumeBackend) (c : Control) :
  cls c = class_of k ->
  Class_eqb (cls c) SpotifyVolumeControlAsync = VolumeBackend_eqb k SPOTIFY.
Proof. intros ->. destruct k; reflexivity. Qed.

Lemma target_remote (k : VolumeBackend) (c : Control) :
  cls c = class_of k ->
  target_of c = if VolumeBackend_eqb k SPOTIFY then Stream (bound_device c)
                else Mixer (class_of k).
Proof. unfold target_of. intros ->. destruct k; reflexivity. Qed.

(** [change_volume] follows the resolution: it raises what the resolution
    raises, and otherwise performs exactly one write, of the unclamped sum,
    on the resolved instance. *)
Lemma change_volume_result (by_ : Z) (to : option Z) (b : option backend_arg)
    (dev : option string) (fd : bool) (fs : Z) (st : State) :
  wf st ->
  match chosen h b with
  | Raise e =>
      exists st', change_volume h self by_ to b dev fd fs st = (Raise e, st') /\
                  wf st' /\ ext st st'
  | Return k =>
      exists c s1 st',
        backend h self b dev st = (Return (Some c), s1) /\
        wf s1 /\ ext st s1 /\
        resolved self st s1 b dev k c /\
        let vol := match to with
                   | Some t => t
                   | None => levels st (target_of c)
                   end in
        change_volume h self by_ to b dev fd fs st =
          (Return (write_result k c (vol + by_)), st') /\
        wf st' /\
        steps st [write_event k c (vol + by_) fd fs] st' /\
        levels st' (target_of c) = clamp (vol + by_)
  end.
Proof.
  intros W.
  destruct (backend_result b dev W) as (s1 & W1 & X1 & R).
  destruct (chosen h b) as [k|e].
  2:{ exists s1. unfold change_volume. erewrite bind_raise by exact R. auto. }
  destruct R as (c & R & Q).
  pose proof (@class_is_remote k c (proj1 Q)) as CR.
  exists c, s1. unfold change_volume. erewrite bind_return by exact R.
  cbv beta iota zeta. rewrite CR. unfold write_result, write_event.
  rewrite <- (ext_levels X1).
  destruct (VolumeBackend_eqb k SPOTIFY) eqn:SPO.
  - destruct to as [t|]; eexists;
      (split; [exact R|]); (split; [exact W1|]); (split; [exact X1|]);
      (split; [exact Q|]); cbn zeta;
      (split; [reflexivity|]);
      (split; [apply written_wf; exact W1|]);
      (split; [|apply set_level_read]);
      (apply (@steps_trans st s1 _ [] _);
       [apply ext_steps; exact X1 | apply written_steps]).
  - destruct to as [t|]; eexists;
      (split; [exact R|]); (split; [exact W1|]); (split; [exact X1|]);
      (split; [exact Q|]); cbn zeta;
      (split; [reflexivity|]);
      (split; [apply written_wf; exact W1|]);
      (split; [|apply set_level_read]);
      (apply (@steps_trans st s1 _ [] _);
       [apply ext_steps; exact X1 | apply written_steps]).
Qed.

Lemma scheduled_wf (e : Event) (st : State) : wf st -> wf (log e st).
Proof.
  intros W. constructor; simpl.
  - intros k u E. apply (wf_cell W). destruct k; exact E.
  - exact (wf_backends W).
  - exact (wf_optimal W).
Qed.

Lemma task_wf (e : Event) (n : nat) (st : State) :
  wf st -> wf (log e (set_next_task n st)).
Proof.
  intros W. constructor; simpl.
  - intros k u E. apply (wf_cell W). destruct k; exact E.
  - exact (wf_backends W).
  - exact (wf_optimal W).
Qed.

Lemma chosen_remote : chosen h (Some (Member SPOTIFY)) = Return SPOTIFY.
Proof. reflexivity. Qed.

Lemma resolved_remote_device (st s1 : State) (dev : option string) (r : Control) :
  wf s1 ->
  resolved self st s1 (Some (Member SPOTIFY)) dev SPOTIFY r ->
  cls r = SpotifyVolumeControlAsync /\ bound_device r = remote_device self dev.
Proof.
  intros W1 (K & F). split; [exact K|].
  unfold throwaway in F. cbn [truthy_arg VolumeBackend_eqb andb] in F.
  unfold remote_device.
  destruct (truthy_str dev && negb (opt_str_eqb dev (device self))).
  - tauto.
  - apply (wf_cell W1) in F. destruct F as (_ & _ & _ & B). exact B.
Qed.

(** Two resolutions of the same argument, the second from a later state,
    hand out instances of the same class bound to the same device, and the
    very same instance unless a throwaway remote instance is built. *)
Lemma resolved_again (b : option backend_arg) (dev : option string) (k : VolumeBackend)
    (st s1 s2 s3 : State) (c c2 : Control) :
  resolved self st s1 b dev k c ->
  (forall v, cell k s1 = Some v -> cell k s3 = Some v) ->
  resolved self s2 s3 b dev k c2 ->
  cls c2 = class_of k /\ bound_device c2 = bound_device c /\
  (throwaway self b k dev = false -> c2 = c).
Proof.
  intros (K & F) Mono (K2 & F2). split; [exact K2|].
  destruct (throwaway self b k dev).
  - split; [|discriminate]. destruct F as (B & _), F2 as (B2 & _). congruence.
  - apply Mono in F. assert (c2 = c) by congruence. subst. auto.
Qed.

(** What one call of [fade] does, in full: the outcome, the handle and the
    chronological list of what it wrote and scheduled. *)
Lemma fade_result (limit start step seconds : Z) (force : bool)
    (b : option backend_arg) (spotify_volume : Z) (dev : option string)
    (blocking : bool) (st : State) :
  wf st ->
  match chosen h b with
  | Raise e =>
      exists st',
        fade h self limit start step seconds force b spotify_volume dev blocking st
          = (Raise e, st') /\ ext st st'
  | Return k =>
      exists c s1 r c2 st',
        backend h self b dev st = (Return (Some c), s1) /\
        cls c = class_of k /\
        (cls c2 = class_of k /\ bound_device c2 = bound_device c /\
         (throwaway self b k dev = false -> c2 = c)) /\
        (VolumeBackend_eqb k SPOTIFY = false ->
         cls r = SpotifyVolumeControlAsync /\ bound_device r = remote_device self dev) /\
        fade h self limit start step seconds force b spotify_volume dev blocking st
          = (Return (handle k blocking (next_task st)), st') /\
        wf st' /\
        trace st' =
          trace st
          ++ (if VolumeBackend_eqb k SPOTIFY then []
              else [SetVolume r spotify_volume false 5])
          ++ [write_event k c2 start false 5;
              scheduled k c (mkFadeSpec limit start step seconds force) blocking
                (next_task st)]
  end.
Proof.
  intros W.
  destruct (backend_result b dev W) as (s1 & W1 & X1 & R).
  destruct (chosen h b) as [k|e] eqn:CH.
  2:{ exists s1. unfold fade. erewrite bind_raise by exact R. auto. }
  destruct R as (c & R & Q).
  pose proof (@class_is_remote k c (proj1 Q)) as CR.
  unfold fade. erewrite bind_return by exact R. cbv beta.
  cbn [isinstance existsb].
  assert (NB : Class_eqb (cls c) SpotifyVolumeControlAsync
               || (Class_eqb (cls c) LinuxVolumeControlAsync || false) = nonblocking k).
  { rewrite (proj1 Q). destruct k; reflexivity. }
  rewrite NB, orb_false_r, CR.
  destruct (VolumeBackend_eqb k SPOTIFY) eqn:SPO; cbn [negb].
  - (* the resolved backend is the remote one: no pin *)
    erewrite bind_return by reflexivity.
    pose proof (change_volume_result 0 (Some start) b dev false 5 W1) as B.
    rewrite CH in B. destruct B as (c2 & sb & s3 & Rb & Wb & Xb & Qb & Eb & W3 & S3 & _).
    cbn zeta in Eb, S3. rewrite Z.add_0_r in Eb, S3.
    erewrite bind_return by exact Eb.
    assert (RA := @resolved_again b dev k st s1 s1 sb c c2 Q (ext_cell Xb k) Qb).
    assert (N3 : next_task s3 = next_task st)
      by (rewrite (steps_task S3); apply (ext_task X1)).
    assert (T3 : trace s3 = trace st ++ [write_event k c2 start false 5])
      by (rewrite (steps_trace S3), (ext_trace X1); reflexivity).
    assert (k = SPOTIFY) as -> by (destruct k; cbn in SPO; congruence).
    exists c, s1, c, c2. unfold handle, scheduled. cbn [nonblocking andb].
    destruct blocking; cbn [negb];
      unfold await_ramp, create_task, bind, ret; eexists;
      (split; [exact R|]); (split; [exact (proj1 Q)|]); (split; [exact RA|]);
      (split; [discriminate|]);
      (split; [rewrite ?N3; reflexivity|]);
      (split; [first [apply task_wf | apply scheduled_wf]; exact W3|]);
      simpl; rewrite T3, ?N3, <- app_assoc; reflexivity.
  - (* a local backend: the remote stream is pinned first *)
    pose proof (change_volume_result 0 (Some spotify_volume) (Some (Member SPOTIFY))
                  dev false 5 W1) as P.
    rewrite chosen_remote in P.
    destruct P as (r & sp & s2 & Rr & Wr & Xr & Qr & Er & W2 & S2 & _).
    cbn zeta in Er, S2. rewrite Z.add_0_r in Er, S2.
    erewrite bind_return by (erewrite bind_return by exact Er; reflexivity).
    pose proof (change_volume_result 0 (Some start) b dev false 5 W2) as B.
    rewrite CH in B. destruct B as (c2 & sb & s3 & Rb & Wb & Xb & Qb & Eb & W3 & S3 & _).
    cbn zeta in Eb, S3. rewrite Z.add_0_r in Eb, S3.
    erewrite bind_return by exact Eb.
    assert (RA := @resolved_again b dev k st s1 s2 sb c c2 Q
                    (fun v E => ext_cell Xb k (steps_cell S2 k E)) Qb).
    assert (N3 : next_task s3 = next_task st)
      by (rewrite (steps_task S3), (steps_task S2); apply (ext_task X1)).
    assert (T3 : trace s3 = trace st ++ [SetVolume r spotify_volume false 5]
                            ++ [write_event k c2 start false 5]).
    { rewrite (steps_trace S3), (steps_trace S2), (ext_trace X1), <- app_assoc.
      reflexivity. }
    pose proof (resolved_remote_device Wr Qr) as RD.
    exists c, s1, r, c2. unfold handle, scheduled.
    destruct (nonblocking k); [destruct blocking|]; cbn [negb andb];
      unfold await_ramp, create_task, run_in_executor, bind, ret; eexists;
      (split; [exact R|]); (split; [exact (proj1 Q)|]); (split; [exact RA|]);
      (split; [intros _; exact RD|]);
      (split; [rewrite ?N3; reflexivity|]);
      (split; [first [apply task_wf | apply scheduled_wf]; exact W3|]);
      simpl; rewrite T3, ?N3, <- !app_assoc; reflexivity.
Qed.

(** C3.  When the resolution settles on a kind [k], one call of [fade]
    logs, after what was logged before and in this order: for a kind other
    than the remote one, first the remote stream's volume set to
    [spotify_volume] (on a remote instance bound to the targeted device),
    then the resolved instance set to [start], and last the ramp being
    scheduled on that instance; for the remote kind, only the write of
    [start] followed by the scheduling, with no pin. *)
Theorem fade_pins_then_ramps (limit start step seconds : Z) (force : bool)
    (b : option backend_arg) (spotify_volume : Z) (dev : option string)
    (blocking : bool) (k : VolumeBackend) (st : State) :
  wf st ->
  chosen h b = Return k ->
  exists c r c2 res st',
    fade h self limit start step seconds force b spotify_volume dev blocking st
      = (Return res, st') /\
    cls c = class_of k /\ cls c2 = class_of k /\
    (k <> SPOTIFY ->
     cls r = SpotifyVolumeControlAsync /\
     bound_device r = remote_device self dev /\
     trace st' =
       trace st ++
       [SetVolume r spotify_volume false 5;
        SetMixer c start;
        scheduled k c (mkFadeSpec limit start step seconds force) blocking
          (next_task st)]) /\
    (k = SPOTIFY ->
     trace st' =
       trace st ++
       [SetVolume c2 start false 5;
        scheduled k c (mkFadeSpec limit start step seconds force) blocking
          (next_task st)]).
Proof.
  intros W CH.
  pose proof (fade_result limit start step seconds force b spotify_volume dev blocking W) as F.
  rewrite CH in F.
  destruct F as (c & s1 & r & c2 & st' & R & K & (K2 & B2 & Same) & Pin & E & W' & T).
  exists c, r, c2, (handle k blocking (next_task st)), st'.
  split; [exact E|]. split; [exact K|]. split; [exact K2|]. split.
  - intros N.
    assert (Q : VolumeBackend_eqb k SPOTIFY = false) by (destruct k; auto; congruence).
    destruct (Pin Q) as (Kr & Br). split; [exact Kr|]. split; [exact Br|].
    assert (c2 = c) as ->.
    { apply Same. unfold throwaway. rewrite Q. now rewrite andb_false_r. }
    rewrite T, Q. unfold write_event. rewrite Q. reflexivity.
  - intros ->. rewrite T. reflexivity.
Qed.

(** C4.  When the resolution settles on a kind [k], [fade] returns, for
    every fade specification: a task handle exactly when [k] is the remote
    or the composite Linux kind and [blocking] is false, the last thing
    logged being the creation of that task; no handle when such a kind is
    faded with [blocking] true, the ramp having been awaited; and no handle
    for the other kinds, whose ramp was handed to the executor. *)
Theorem fade_handle_iff_detached (limit start step seconds : Z) (force : bool)
    (b : option backend_arg) (spotify_volume : Z) (dev : option string)
    (blocking : bool) (k : VolumeBackend) (st : State) :
  wf st ->
  chosen h b = Return k ->
  exists c res pre st',
    fade h self limit start step seconds force b spotify_volume dev blocking st
      = (Return res, st') /\
    cls c = class_of k /\
    (res <> None <-> ((k = SPOTIFY \/ k = LINUX) /\ blocking = false)) /\
    ((k = SPOTIFY \/ k = LINUX) -> blocking = false ->
     res = Some (next_task st) /\
     trace st' = trace st ++ pre ++
       [CreateTask c (mkFadeSpec limit start step seconds force) (next_task st)]) /\
    ((k = SPOTIFY \/ k = LINUX) -> blocking = true ->
     res = None /\
     trace st' = trace st ++ pre ++
       [AwaitRamp c (mkFadeSpec limit start step seconds force)]) /\
    (k <> SPOTIFY -> k <> LINUX ->
     res = None /\
     trace st' = trace st ++ pre ++
       [RunInExecutor c (mkFadeSpec limit start step seconds force)]).
Proof.
  intros W CH.
  pose proof (fade_result limit start step seconds force b spotify_volume dev blocking W) as F.
  rewrite CH in F.
  destruct F as (c & s1 & r & c2 & st' & R & K & _ & _ & E & W' & T).
  exists c, (handle k blocking (next_task st)),
    ((if VolumeBackend_eqb k SPOTIFY then [] else [SetVolume r spotify_volume false 5])
     ++ [write_event k c2 start false 5]), st'.
  split; [exact E|]. split; [exact K|].
  assert (T' : forall ev, scheduled k c (mkFadeSpec limit start step seconds force)
                            blocking (next_task st) = ev ->
               trace st' = trace st ++
                 ((if VolumeBackend_eqb k SPOTIFY then []
                   else [SetVolume r spotify_volume false 5])
                  ++ [write_event k c2 start false 5]) ++ [ev]).
  { intros ev <-. rewrite T, <- !app_assoc. reflexivity. }
  unfold handle. split; [|split; [|split]].
  - destruct k, blocking; cbn; split;
      try congruence; try (intros ([|] & ?); congruence); auto.
  - intros NB ->. destruct NB as [-> | ->]; (split; [reflexivity | apply T'; reflexivity]).
  - intros NB ->. destruct NB as [-> | ->]; (split; [reflexivity | apply T'; reflexivity]).
  - intros N1 N2. destruct k; try congruence;
      (split; [reflexivity | apply T'; reflexivity]).
Qed.

(** C7, as the code has it.  [change_volume] checks no range: with an
    explicit target [t] on a kind other than the remote one it hands
    [t + by_] as it is to the setter of the resolved instance, once, and
    returns [t + by_] itself, whatever its value. *)
Theorem change_volume_returns_unclamped_sum (by_ t : Z) (b : option backend_arg)
    (dev : option string) (fd : bool) (fs : Z) (k : VolumeBackend) (st : State) :
  wf st ->
  chosen h b = Return k ->
  k <> SPOTIFY ->
  exists c st',
    change_volume h self by_ (Some t) b dev fd fs st = (Return (Level (t + by_)), st') /\
    cls c = class_of k /\
    trace st' = trace st ++ [SetMixer c (t + by_)].
Proof.
  intros W CH N.
  pose proof (change_volume_result by_ (Some t) b dev fd fs W) as C.
  rewrite CH in C. destruct C as (c & s1 & st' & R & W1 & X1 & Q & E & W' & S & L).
  assert (F : VolumeBackend_eqb k SPOTIFY = false) by (destruct k; auto; congruence).
  cbn zeta in E, S. unfold write_result in E. unfold write_event in S.
  rewrite F in E, S.
  exists c, st'. split; [exact E|]. split; [exact (proj1 Q)|].
  exact (steps_trace S).
Qed.

End PlayerFacts.

(** * Properties of genre playback *)

Section GenreFacts.

Import Player.

Variable answer : nat -> option nat.

Lemma while_not_playlist_found (fuel n p : nat) :
  while_not_playlist fuel answer n (Some p) = Some (p, n).
Proof. destruct fuel; reflexivity. Qed.

(** With the first playlist at request [n + i], the loop returns it after
    exactly [i + 1] further requests and is still running before. *)
Lemma while_not_playlist_first (i : nat) :
  forall fuel n p,
    (forall j, j < i -> answer (n + j) = None) ->
    answer (n + i) = Some p ->
    while_not_playlist fuel answer n None =
      if i <? fuel then Some (p, S (n + i)) else None.
Proof.
  induction i as [|i IH]; intros fuel n p Hnone Hsome.
  - rewrite Nat.add_0_r in Hsome. destruct fuel as [|fuel]; [reflexivity|].
    cbn [while_not_playlist]. rewrite Hsome, while_not_playlist_found.
    now rewrite Nat.add_0_r.
  - destruct fuel as [|fuel]; [reflexivity|].
    cbn [while_not_playlist].
    assert (E0 : answer n = None).
    { rewrite <- (Nat.add_0_r n). apply Hnone. lia. }
    rewrite E0.
    rewrite (IH fuel (S n) p).
    + replace (S n + i) with (n + S i) by lia. reflexivity.
    + intros j Hj. replace (S n + j) with (n + S j) by lia. apply Hnone. lia.
    + replace (S n + i) with (n + S i) by lia. exact Hsome.
Qed.

Lemma while_not_playlist_returns (fuel : nat) :
  forall n r,
    while_not_playlist fuel answer n None = Some r ->
    exists i, answer (n + i) <> None.
Proof.
  induction fuel as [|fuel IH]; intros n r E; [discriminate|].
  cbn [while_not_playlist] in E.
  destruct (answer n) as [p|] eqn:A.
  - exists 0. rewrite Nat.add_0_r. congruence.
  - destruct (IH _ _ E) as (i & Hi). exists (S i).
    replace (n + S i) with (S n + i) by lia. exact Hi.
Qed.

Lemma first_answer (i : nat) :
  forall n,
    answer (n + i) <> None ->
    exists i0 p, (forall j, j < i0 -> answer (n + j) = None) /\ answer (n + i0) = Some p.
Proof.
  induction i as [|i IH]; intros n Hi.
  - destruct (answer (n + 0)) as [p|] eqn:A; [|congruence].
    exists 0, p. split; [intros j Hj; lia | exact A].
  - destruct (answer n) as [p|] eqn:A.
    + exists 0, p. split; [intros j Hj; lia | now rewrite Nat.add_0_r].
    + replace (n + S i) with (S n + i) in Hi by lia.
      destruct (IH _ Hi) as (i0 & p & Hnone & Hsome).
      exists (S i0), p. split.
      * intros [|j] Hj; [now rewrite Nat.add_0_r|].
        replace (n + S j) with (S n + j) by lia. apply Hnone. lia.
      * replace (n + S i0) with (S n + i0) by lia. exact Hsome.
Qed.

End GenreFacts.

Section GenreCall.

Import Player.

Variable h : Host.
Variable self : Session.
Variable up : FadeArgs.
Variable top_genres : list string.
Variable genre_playlist : string -> nat -> nat -> option nat.

Lemma genre_call_unfold (fuel popularity_pick genre_pick : nat) (dev : option string)
    (fade_args : FadeArgs) (st : State) (g0 : string) (rest : list string) :
  top_genres = g0 :: rest ->
  play_recommended_genre h self up top_genres genre_playlist
      fuel popularity_pick genre_pick dev fade_args st =
    match while_not_playlist (S fuel)
            (genre_playlist
               (nth (Nat.modulo genre_pick (List.length top_genres)) top_genres g0)
               (Nat.modulo popularity_pick 3)) 0 None with
    | None => None
    | Some (playlist, _) =>
        Some ((bind (fade_up h self up dev fade_args) (fun _ =>
               bind (playlist_play playlist dev) (fun _ =>
               ret (mkGenreResult true dev playlist)))) st)
    end.
Proof.
  intros E. unfold play_recommended_genre. rewrite E. reflexivity.
Qed.

(** C8.  Once a genre is drawn, [play_recommended_genre] requests the
    playlist of that genre and popularity tier again and again: it returns
    if and only if some request is answered with a playlist, and when the
    first such answer is the one to request number [i] it has not returned
    after fewer than [i] repeated requests, however large [i] is, and goes
    on with that playlist after [i] of them. *)
Theorem genre_retry_terminates_iff (popularity_pick genre_pick : nat)
    (dev : option string) (fade_args : FadeArgs) (st : State)
    (g0 : string) (rest : list string) :
  top_genres = g0 :: rest ->
  let genre := nth (Nat.modulo genre_pick (List.length top_genres)) top_genres g0 in
  let answer := genre_playlist genre (Nat.modulo popularity_pick 3) in
  ((exists fuel r,
      play_recommended_genre h self up top_genres genre_playlist
        fuel popularity_pick genre_pick dev fade_args st = Some r)
   <-> exists i, answer i <> None) /\
  (forall i p,
      (forall j, j < i -> answer j = None) -> answer i = Some p ->
      forall fuel,
        play_recommended_genre h self up top_genres genre_playlist
          fuel popularity_pick genre_pick dev fade_args st =
        if i <=? fuel then
          Some ((bind (fade_up h self up dev fade_args) (fun _ =>
                 bind (playlist_play p dev) (fun _ =>
                 ret (mkGenreResult true dev p)))) st)
        else None).
Proof.
  intros E genre answer.
  assert (Run : forall i p,
             (forall j, j < i -> answer j = None) -> answer i = Some p ->
             forall fuel,
               play_recommended_genre h self up top_genres genre_playlist
                 fuel popularity_pick genre_pick dev fade_args st =
               if i <=? fuel then
                 Some ((bind (fade_up h self up dev fade_args) (fun _ =>
                        bind (playlist_play p dev) (fun _ =>
                        ret (mkGenreResult true dev p)))) st)
               else None).
  { intros i p Hnone Hsome fuel.
    rewrite (genre_call_unfold fuel popularity_pick genre_pick dev fade_args st E).
    fold genre. fold answer.
    rewrite (@while_not_playlist_first answer i (S fuel) 0 p Hnone Hsome).
    change (i <? S fuel) with (i <=? fuel).
    destruct (i <=? fuel); reflexivity. }
  split; [split|exact Run].
  - intros (fuel & r & R).
    rewrite (genre_call_unfold fuel popularity_pick genre_pick dev fade_args st E) in R.
    fold genre in R. fold answer in R.
    destruct (while_not_playlist (S fuel) answer 0 None) as [q|] eqn:Wh; [|discriminate].
    destruct (while_not_playlist_returns _ _ _ Wh) as (i & Hi). exists i. exact Hi.
  - intros (i & Hi).
    destruct (@first_answer answer i 0 Hi) as (i0 & p & Hnone & Hsome).
    exists i0. eexists. rewrite (Run i0 p Hnone Hsome i0).
    rewrite Nat.leb_refl. reflexivity.
Qed.

End GenreCall.

(** * Properties of the synchronous wrapper *)

Section WrapperFacts.

Import Wrapper.

Variable h : Host.
Variable self : Session.

Abbreviation runs := (Wrapper.runs self).
Abbreviation preserves := (Wrapper.preserves self).

Lemma runs_refl (st : State) : runs st st.
Proof. split; [reflexivity|]. exists []. now rewrite app_nil_r. Qed.

Lemma runs_trans (a b c : State) : runs a b -> runs b c -> runs a c.
Proof.
  intros (D1 & e1 & T1) (D2 & e2 & T2). split; [congruence|].
  exists (e1 ++ e2). rewrite T2, T1. now rewrite app_assoc.
Qed.

Lemma preserves_ret {A} (a : A) : preserves (ret a).
Proof. intros st r st' [= <- <-]. apply runs_refl. Qed.

Lemma preserves_raise {A} (e : exn) : preserves (@raise State A e).
Proof. intros st r st' [= <- <-]. apply runs_refl. Qed.

Lemma preserves_bind {A B} (m : M State A) (k : A -> M State B) :
  preserves m -> (forall a, preserves (k a)) -> preserves (bind m k).
Proof.
  intros Pm Pk st r st'. unfold bind.
  destruct (m st) as [[a|e] s1] eqn:E.
  - intros K. eapply runs_trans; [exact (Pm _ _ _ E) | exact (Pk a _ _ _ K)].
  - intros [= <- <-]. exact (Pm _ _ _ E).
Qed.

(** Memoizing into a cell other than the device's changes neither the
    device nor the trace. *)
Lemma preserves_cached {A} (get : State -> option A) (set : A -> State -> State)
    (body : M State A) :
  (forall v s, session_device self (set v s) = session_device self s /\
               trace (set v s) = trace s) ->
  preserves body -> preserves (cached_property get set body).
Proof.
  intros Hset Pb st r st'. unfold cached_property.
  destruct (get st) as [v|].
  - intros [= <- <-]. apply runs_refl.
  - destruct (body st) as [[v|e] s1] eqn:E.
    + intros [= <- <-]. eapply runs_trans; [exact (Pb _ _ _ E)|].
      destruct (Hset v s1) as (D & T). split; [exact D|].
      exists []. now rewrite app_nil_r.
    + intros [= <- <-]. exact (Pb _ _ _ E).
Qed.

(** Reading [_device] yields the session's device and leaves it in place. *)
Lemma device_read (st : State) :
  exists st', _device self st = (Return (session_device self st), st') /\
              session_device self st' = session_device self st /\
              trace st' = trace st.
Proof.
  unfold _device, cached_property, get_device, ret, session_device.
  destruct (device_cell st) as [d|] eqn:C.
  - exists st. rewrite C. auto.
  - eexists. split; [reflexivity|]. simpl. auto.
Qed.

Lemma preserves_device : preserves (_device self).
Proof.
  intros st r st' E. destruct (device_read st) as (s1 & E1 & D & T).
  rewrite E1 in E. injection E as <- <-. split; [exact D|].
  exists []. now rewrite app_nil_r.
Qed.

Lemma preserves_new (c : Class) (d : option string) : preserves (new c d).
Proof.
  intros st r st' [= <- <-]. split; [reflexivity|].
  exists []. simpl. now rewrite app_nil_r.
Qed.

Lemma preserves_construct (c : Class) (d : option string) : preserves (construct h c d).
Proof.
  unfold construct. destruct (constructor_raises h c);
    [apply preserves_raise | apply preserves_new].
Qed.

Lemma preserves_log {A} (a : A) (e : Event) :
  preserves (fun st => (Return a, log e st)).
Proof.
  intros st r st' [= <- <-]. split; [reflexivity|]. exists [e]. reflexivity.
Qed.

Lemma preserves_set_volume (c : option Control) (v : Z) : preserves (set_volume c v).
Proof.
  destruct c as [c|]; [|apply preserves_raise].
  intros st r st' [= <- <-]. split; [reflexivity|]. exists [SetVolume c v]. reflexivity.
Qed.

Ltac cell_untouched := intros ? ?; split; reflexivity.

Lemma preserves_applescript : preserves (_applescript_volume_control h).
Proof.
  apply preserves_cached; [cell_untouched|].
  destruct (negb (sysname h =? "Darwin")%string); [apply preserves_ret|].
  apply preserves_bind; [apply preserves_construct | intros; apply preserves_ret].
Qed.

Lemma preserves_linux : preserves (_linux_volume_control h self).
Proof.
  apply preserves_cached; [cell_untouched|].
  destruct (negb (sysname h =? "Linux")%string); [apply preserves_ret|].
  apply preserves_bind; [apply preserves_device|]. intros d.
  apply preserves_bind; [apply preserves_construct | intros; apply preserves_ret].
Qed.

Lemma preserves_alsa : preserves (_alsa_volume_control h).
Proof.
  apply preserves_cached; [cell_untouched|].
  destruct (negb (sysname h =? "Linux")%string); [apply preserves_ret|].
  apply preserves_bind; [apply preserves_construct | intros; apply preserves_ret].
Qed.

Lemma preserves_spotify : preserves (_spotify_volume_control self).
Proof.
  apply preserves_cached; [cell_untouched|].
  apply preserves_bind; [apply preserves_device | intros; apply preserves_new].
Qed.

Lemma preserves_fade_of (property : M State (option Control)) :
  preserves property -> preserves (fade_of property).
Proof.
  intros P. apply preserves_bind; [exact P|].
  intros [c|]; [apply preserves_ret | apply preserves_raise].
Qed.

Lemma preserves_switch (c : option Control) (d : option string) :
  preserves (switch_audio_device c d).
Proof.
  destruct c as [c|]; [apply preserves_log | apply preserves_raise].
Qed.

Ltac preserving :=
  repeat first
    [ apply preserves_ret
    | apply preserves_raise
    | apply preserves_applescript
    | apply preserves_linux
    | apply preserves_alsa
    | apply preserves_spotify
    | apply preserves_set_volume
    | apply preserves_switch
    | apply preserves_log
    | apply preserves_fade_of
    | apply preserves_bind
    | match goal with
      | |- forall _, _ => intro
      | |- Wrapper.preserves _ (if ?b then _ else _) => destruct b
      end ].

(** The part of [play] that runs before [start_playback]. *)
Lemma preserves_fade_branch (fade : bool) (volume : Z) (fade_args : list (string * Z)) :
  preserves
    (if fade then
       bind (_applescript_volume_control h) (fun a =>
       if truthy_ctl a then
         bind (fade_of (_applescript_volume_control h)) (fun target =>
         bind (if truthy_str (audio_device self) then
                 bind (_applescript_volume_control h) (fun a' =>
                 switch_audio_device a' (audio_device self))
               else ret tt) (fun _ =>
         thread_start target fade_args))
       else
         bind (_linux_volume_control h self) (fun l =>
         if truthy_ctl l then
           bind (fade_of (_linux_volume_control h self)) (fun target =>
           bind (_spotify_volume_control self) (fun sp =>
           bind (set_volume (Some sp) volume) (fun _ =>
           thread_start target fade_args)))
         else
           bind (_alsa_volume_control h) (fun al =>
           if truthy_ctl al then
             bind (fade_of (_alsa_volume_control h)) (fun target =>
             bind (_spotify_volume_control self) (fun sp =>
             bind (set_volume (Some sp) volume) (fun _ =>
             thread_start target fade_args)))
           else
             bind (_spotify_volume_control self) (fun target =>
             thread_start target fade_args))))
     else ret tt).
Proof.
  unfold thread_start. preserving.
Qed.

(** C10.  [play] calls [start_playback] last, with the id of the device
    the session is bound to whenever that id is truthy, and with the
    [device_id] argument only when it is falsy; without [fade] it always
    gets there, and with [fade] it does whenever it returns. *)
Theorem sync_play_prefers_session_device (tracks : list string)
    (device_id : option string) (volume : Z) (fade_args : list (string * Z))
    (st : State) :
  let d := session_device self st in
  (forall fade r st',
      play h self tracks device_id fade volume fade_args st = (Return r, st') ->
      r = (tracks, py_or (id d) device_id) /\
      exists pre,
        trace st' = trace st ++ pre ++ [StartPlayback tracks (py_or (id d) device_id)]) /\
  (exists st',
      play h self tracks device_id false volume fade_args st =
        (Return (tracks, py_or (id d) device_id), st') /\
      trace st' = trace st ++ [StartPlayback tracks (py_or (id d) device_id)]) /\
  (truthy_str (id d) = true -> py_or (id d) device_id = id d) /\
  (truthy_str (id d) = false -> py_or (id d) device_id = device_id).
Proof.
  intros d. split; [|split; [|split]].
  - intros fade r st' E. unfold play in E.
    apply bind_inv in E. destruct E as ([] & s1 & E1 & E2).
    pose proof (@preserves_fade_branch fade volume fade_args st (Return tt) s1 E1) as R1.
    destruct R1 as (D1 & pre & T1).
    destruct (device_read s1) as (s2 & E3 & D2 & T2).
    erewrite bind_return in E2 by exact E3.
    unfold start_playback in E2. injection E2 as <- <-.
    rewrite D1. fold d. split; [reflexivity|].
    exists pre. simpl. rewrite T2, T1, <- app_assoc. reflexivity.
  - destruct (device_read st) as (s2 & E3 & D2 & T2).
    unfold play. erewrite bind_return by reflexivity.
    erewrite bind_return by exact E3.
    unfold start_playback. eexists. split; [reflexivity|].
    simpl. now rewrite T2.
  - unfold py_or. now intros ->.
  - unfold py_or. now intros ->.
Qed.

(** C9.  In the wrapper, [change_volume] with the LINUX kind, given as the
    member or as its value, passes the assertion, is none of the three
    kinds the function dispatches on, and returns [None] in an unchanged
    state: nothing is read, written or memoized. *)
Theorem sync_change_volume_linux_falls_through (value : Z) (st : State) :
  (valid h (Member LINUX) = true /\
   is_kind h (Member LINUX) ALSA = false /\
   is_kind h (Member LINUX) APPLESCRIPT = false /\
   is_kind h (Member LINUX) SPOTIFY = false /\
   change_volume h self value (Member LINUX) st = (Return None, st)) /\
  ((forall k, k <> LINUX -> enum_value h k <> enum_value h LINUX) ->
   valid h (Value (enum_value h LINUX)) = true /\
   change_volume h self value (Value (enum_value h LINUX)) st = (Return None, st)).
Proof.
  split.
  - repeat split; reflexivity.
  - intros Inj.
    assert (V : valid h (Value (enum_value h LINUX)) = true).
    { unfold valid, members. cbn [existsb orb].
      rewrite (String.eqb_refl (enum_value h LINUX)). now rewrite orb_true_r. }
    split; [exact V|].
    unfold change_volume. rewrite V. cbn [negb].
    assert (N : forall k, k <> LINUX -> is_kind h (Value (enum_value h LINUX)) k = false).
    { intros k Hk. unfold is_kind. apply String.eqb_neq.
      intros E. apply (Inj k Hk). now symmetry. }
    rewrite !N by discriminate. reflexivity.
Qed.

End WrapperFacts.

(** * The two files side by side *)

(** In the player mixin, discovery returns on every host: a constructor
    that raises leaves [None] in the table. *)
Lemma player_discovery_never_raises (h : Host) (self : Player.Session)
    (lv : Target -> Z) :
  exists d st', Player._backends h self (Player.fresh lv) = (Return d, st').
Proof.
  destruct (@backends_spec h self (Player.fresh lv) (fresh_wf h self lv))
    as (d & st' & E & _).
  exists d, st'. exact E.
Qed.

(** C6, at the input where the wrapper departs from it.  On a Linux host
    where the constructor of the composite Linux control raises, the
    wrapper's [_linux_volume_control] raises that exception and so does
    [play] with [fade] set, although the ALSA and remote controls could be
    built; on the same host the player mixin's property of the same name
    returns [None] and its discovery returns a table. *)
Theorem sync_wrapper_lets_constructor_failure_escape :
  fst (Wrapper._linux_volume_control Sample.linux_host Sample.wrapper_session
         (Wrapper.fresh Sample.half))
    = Raise (ConstructorFailure LinuxVolumeControl) /\
  fst (Wrapper.play Sample.linux_host Sample.wrapper_session
         ["track"%string] None true 80 [] (Wrapper.fresh Sample.half))
    = Raise (ConstructorFailure LinuxVolumeControl) /\
  fst (Player._linux_volume_control Sample.linux_host Sample.player_session
         (Player.fresh Sample.half))
    = Return None /\
  fst (Player._backends Sample.linux_host Sample.player_session
         (Player.fresh Sample.half))
    = Return [(APPLESCRIPT, None); (LINUX, None);
              (ALSA, Some (mkControl 0 AlsaVolumeControl None));
              (SPOTIFY, Some (mkControl 1 SpotifyVolumeControlAsync (Some "A"%string)))].
Proof. repeat split; reflexivity. Qed.

(** C7 fails as stated: an explicit target of 150 on the ALSA backend is
    not rejected by [change_volume]; 150 is handed to the backend's setter
    and 150 is returned. *)
Lemma explicit_out_of_range_target_is_written :
  let call :=
    Player.change_volume Sample.linux_host Sample.player_session
      0 (Some 150%Z) (Some (Member ALSA)) None false 5 (Player.fresh Sample.half) in
  fst call = Return (Player.Level 150) /\
  Player.trace (snd call) = [Player.SetMixer (mkControl 0 AlsaVolumeControl None) 150] /\
  ~ (0 <= 150 <= 100)%Z.
Proof.
  cbv zeta. split; [reflexivity|]. split; [reflexivity|]. lia.
Qed.

(** * Worked instances *)

Lemma default_backend_first_available_witness :
  Player.wf Sample.linux_host Sample.player_session (Player.fresh Sample.half) /\
  exists c k d st',
    Player._optimal_backend Sample.linux_host Sample.player_session
      (Player.fresh Sample.half) = (Return (Some c), st') /\
    find (Player.available Sample.linux_host) Player.priority = Some k /\
    Player.backends_cell st' = Some d /\
    Player.getitem d k = Return (Some c) /\
    cls c = Player.class_of k /\
    (forall k', Player.available Sample.linux_host k' = false ->
                Player.getitem d k' = Return None /\ cls c <> Player.class_of k') /\
    (Player.available Sample.linux_host APPLESCRIPT = false ->
     Player.available Sample.linux_host LINUX = false ->
     Player.available Sample.linux_host ALSA = false -> k = SPOTIFY).
Proof.
  split; [apply fresh_wf|].
  apply (@default_backend_first_available Sample.linux_host Sample.player_session
           (Player.fresh Sample.half)).
  apply fresh_wf.
Defined.

Lemma named_absent_backend_raises_witness :
  Player.wf Sample.linux_host Sample.player_session (Player.fresh Sample.half) /\
  truthy_arg (Some (Value "linux")) = true /\
  VolumeBackend_of Sample.linux_host (Value "linux") = Return LINUX /\
  Player.available Sample.linux_host LINUX = false /\
  exists st',
    Player.backend Sample.linux_host Sample.player_session (Some (Value "linux")) None
      (Player.fresh Sample.half) =
      (Raise (ValueError "Backend None is not available on this system"), st') /\
    Player.change_volume Sample.linux_host Sample.player_session 1 None
      (Some (Value "linux")) None false 5 (Player.fresh Sample.half) =
      (Raise (ValueError "Backend None is not available on this system"), st') /\
    Player.trace st' = Player.trace (Player.fresh Sample.half) /\
    Player.levels st' = Player.levels (Player.fresh Sample.half) /\
    Player.next_task st' = Player.next_task (Player.fresh Sample.half).
Proof.
  split; [apply fresh_wf|]. split; [reflexivity|]. split; [reflexivity|].
  split; [reflexivity|].
  apply (@named_absent_backend_raises Sample.linux_host Sample.player_session
           (Value "linux") LINUX None 1 None false 5 (Player.fresh Sample.half));
    [apply fresh_wf | reflexivity | reflexivity | reflexivity].
Defined.

Lemma resolve_remote_identity_witness :
  Player.wf Sample.linux_host Sample.player_session (Player.fresh Sample.half) /\
  truthy_arg (Some (Member SPOTIFY)) = true /\
  VolumeBackend_of Sample.linux_host (Member SPOTIFY) = Return SPOTIFY /\
  truthy_str (Some "B"%string) = true /\
  Some "B"%string <> Player.device Sample.player_session /\
  exists c m st',
    Player.backend Sample.linux_host Sample.player_session (Some (Member SPOTIFY))
      (Some "B"%string) (Player.fresh Sample.half) = (Return (Some c), st') /\
    Player.spotify_cell st' = Some m /\
    oid c <> oid m /\ Player.next_oid (Player.fresh Sample.half) <= oid c /\
    cls c = SpotifyVolumeControlAsync /\ bound_device c = Some "B"%string /\
    (forall m0, Player.spotify_cell (Player.fresh Sample.half) = Some m0 -> m0 = m).
Proof.
  split; [apply fresh_wf|]. split; [reflexivity|]. split; [reflexivity|].
  split; [reflexivity|]. split; [discriminate|].
  apply (proj1 (@resolve_remote_identity Sample.linux_host Sample.player_session
                  (Member SPOTIFY) SPOTIFY (Some "B"%string) (Player.fresh Sample.half)
                  (fresh_wf _ _ _) eq_refl eq_refl));
    [reflexivity | reflexivity | discriminate].
Defined.

Lemma fade_pins_then_ramps_witness :
  Player.wf Sample.linux_host Sample.player_session (Player.fresh Sample.half) /\
  Player.chosen Sample.linux_host None = Return ALSA /\
  exists c r c2 res st',
    Player.fade Sample.linux_host Sample.player_session 50 0 1 300 false None 100
      (Some "B"%string) false (Player.fresh Sample.half) = (Return res, st') /\
    cls c = Player.class_of ALSA /\ cls c2 = Player.class_of ALSA /\
    (ALSA <> SPOTIFY ->
     cls r = SpotifyVolumeControlAsync /\
     bound_device r = Player.remote_device Sample.player_session (Some "B"%string) /\
     Player.trace st' =
       Player.trace (Player.fresh Sample.half) ++
       [Player.SetVolume r 100 false 5;
        Player.SetMixer c 0;
        Player.scheduled ALSA c (mkFadeSpec 50 0 1 300 false) false
          (Player.next_task (Player.fresh Sample.half))]) /\
    (ALSA = SPOTIFY ->
     Player.trace st' =
       Player.trace (Player.fresh Sample.half) ++
       [Player.SetVolume c2 0 false 5;
        Player.scheduled ALSA c (mkFadeSpec 50 0 1 300 false) false
          (Player.next_task (Player.fresh Sample.half))]).
Proof.
  split; [apply fresh_wf|]. split; [reflexivity|].
  apply (@fade_pins_then_ramps Sample.linux_host Sample.player_session
           50 0 1 300 false None 100 (Some "B"%string) false ALSA
           (Player.fresh Sample.half));
    [apply fresh_wf | reflexivity].
Defined.

Lemma fade_handle_iff_detached_witness :
  Player.wf Sample.sound_linux_host Sample.player_session (Player.fresh Sample.half) /\
  Player.chosen Sample.sound_linux_host None = Return LINUX /\
  exists c res pre st',
    Player.fade Sample.sound_linux_host Sample.player_session 50 0 1 300 false None 100
      None false (Player.fresh Sample.half) = (Return res, st') /\
    cls c = Player.class_of LINUX /\
    (res <> None <-> ((LINUX = SPOTIFY \/ LINUX = LINUX) /\ false = false)) /\
    ((LINUX = SPOTIFY \/ LINUX = LINUX) -> false = false ->
     res = Some (Player.next_task (Player.fresh Sample.half)) /\
     Player.trace st' = Player.trace (Player.fresh Sample.half) ++ pre ++
       [Player.CreateTask c (mkFadeSpec 50 0 1 300 false)
          (Player.next_task (Player.fresh Sample.half))]) /\
    ((LINUX = SPOTIFY \/ LINUX = LINUX) -> false = true ->
     res = None /\
     Player.trace st' = Player.trace (Player.fresh Sample.half) ++ pre ++
       [Player.AwaitRamp c (mkFadeSpec 50 0 1 300 false)]) /\
    (LINUX <> SPOTIFY -> LINUX <> LINUX ->
     res = None /\
     Player.trace st' = Player.trace (Player.fresh Sample.half) ++ pre ++
       [Player.RunInExecutor c (mkFadeSpec 50 0 1 300 false)]).
Proof.
  split; [apply fresh_wf|]. split; [reflexivity|].
  apply (@fade_handle_iff_detached Sample.sound_linux_host Sample.player_session
           50 0 1 300 false None 100 None false LINUX (Player.fresh Sample.half));
    [apply fresh_wf | reflexivity].
Defined.

Lemma change_volume_returns_unclamped_sum_witness :
  Player.wf Sample.linux_host Sample.player_session (Player.fresh Sample.half) /\
  Player.chosen Sample.linux_host (Some (Member ALSA)) = Return ALSA /\
  ALSA <> SPOTIFY /\
  exists c st',
    Player.change_volume Sample.linux_host Sample.player_session 0 (Some 150%Z)
      (Some (Member ALSA)) None false 5 (Player.fresh Sample.half)
      = (Return (Player.Level (150 + 0)), st') /\
    cls c = Player.class_of ALSA /\
    Player.trace st' =
      Player.trace (Player.fresh Sample.half) ++ [Player.SetMixer c (150 + 0)].
Proof.
  split; [apply fresh_wf|]. split; [reflexivity|]. split; [discriminate|].
  apply (@change_volume_returns_unclamped_sum Sample.linux_host Sample.player_session
           0 150 (Some (Member ALSA)) None false 5 ALSA (Player.fresh Sample.half));
    [apply fresh_wf | reflexivity | discriminate].
Defined.

Lemma genre_retry_terminates_iff_witness :
  Sample.genres = "rock"%string :: [] /\
  ((exists fuel r,
      Player.play_recommended_genre Sample.linux_host Sample.player_session Sample.up
        Sample.genres Sample.catalog fuel 0 0 None Sample.no_args
        (Player.fresh Sample.half) = Some r)
   <-> exists i, Sample.catalog "rock" 0 i <> None) /\
  Player.play_recommended_genre Sample.linux_host Sample.player_session Sample.up
    Sample.genres Sample.catalog 1 0 0 None Sample.no_args (Player.fresh Sample.half)
    = None.
Proof.
  split; [reflexivity|].
  pose proof (@genre_retry_terminates_iff Sample.linux_host Sample.player_session
                Sample.up Sample.genres Sample.catalog 0 0 None Sample.no_args
                (Player.fresh Sample.half) "rock"%string [] eq_refl) as T.
  cbv zeta in T. destruct T as (Iff & Run).
  split; [exact Iff|].
  apply (Run 2 7); [intros [|[|j]] Hj; [reflexivity | reflexivity | lia] | reflexivity].
Defined.

Lemma sync_change_volume_linux_falls_through_witness :
  (forall k, k <> LINUX ->
             enum_value Sample.linux_host k <> enum_value Sample.linux_host LINUX) /\
  Wrapper.change_volume Sample.linux_host Sample.wrapper_session 1 (Member LINUX)
    (Wrapper.fresh Sample.half) = (Return None, Wrapper.fresh Sample.half) /\
  Wrapper.change_volume Sample.linux_host Sample.wrapper_session 1 (Value "linux")
    (Wrapper.fresh Sample.half) = (Return None, Wrapper.fresh Sample.half).
Proof.
  assert (Inj : forall k, k <> LINUX ->
                  enum_value Sample.linux_host k <> enum_value Sample.linux_host LINUX)
    by (intros [] N; [discriminate | congruence | discriminate | discriminate]).
  split; [exact Inj|].
  destruct (@sync_change_volume_linux_falls_through Sample.linux_host
              Sample.wrapper_session 1 (Wrapper.fresh Sample.half)) as (M & V).
  split; [apply M | apply (V Inj)].
Defined.

Lemma sync_play_prefers_session_device_witness :
  truthy_str (Wrapper.id (Wrapper.session_device Sample.wrapper_session
                            (Wrapper.fresh Sample.half))) = true /\
  exists st',
    Wrapper.play Sample.linux_host Sample.wrapper_session ["track"%string]
      (Some "other"%string) false 80 [] (Wrapper.fresh Sample.half) =
      (Return (["track"%string], Some "id-A"%string), st') /\
    Wrapper.trace st' = [Wrapper.StartPlayback ["track"%string] (Some "id-A"%string)].
Proof.
  split; [reflexivity|].
  destruct (@sync_play_prefers_session_device Sample.linux_host Sample.wrapper_session
              ["track"%string] (Some "other"%string) 80 []
              (Wrapper.fresh Sample.half)) as (_ & (st' & E & T) & Truthy & _).
  exists st'. rewrite (Truthy eq_refl) in E, T. split; [exact E | exact T].
Defined.

(** * Further properties of the player mixin *)

Lemma cached_property_stored {S A} (get : S -> option A) (set : A -> S -> S)
    (body : M S A) (st st' : S) (v : A) :
  (forall v s, get (set v s) = Some v) ->
  cached_property get set body st = (Return v, st') ->
  get st' = Some v.
Proof.
  intros GS. unfold cached_property.
  destruct (get st) as [v0|] eqn:G.
  - intros [= <- <-]. exact G.
  - destruct (body st) as [[v1|e] s1]; [|discriminate].
    intros [= <- <-]. apply GS.
Qed.

Lemma cached_property_again {S A} (get : S -> option A) (set : A -> S -> S)
    (body : M S A) (st st' : S) (v : A) :
  (forall v s, get (set v s) = Some v) ->
  cached_property get set body st = (Return v, st') ->
  cached_property get set body st' = (Return v, st').
Proof.
  intros GS E. pose proof (cached_property_stored _ _ _ _ GS E) as G.
  unfold cached_property. now rewrite G.
Qed.

Section PlayerMemo.

Import Player.

Variable h : Host.
Variable self : Session.

Lemma backends_again (st st' : State) (d : list (VolumeBackend * option Control)) :
  _backends h self st = (Return d, st') ->
  backends_cell st' = Some d /\ _backends h self st' = (Return d, st').
Proof.
  intros E. split.
  - exact (cached_property_stored _ _ _ _ (fun v s => eq_refl) E).
  - exact (cached_property_again _ _ _ _ (fun v s => eq_refl) E).
Qed.

(** X1.  A resolution that did not build a throwaway remote instance is
    memoized: resolving the same arguments again, in the state the first
    resolution left, returns the very same instance and changes nothing. *)
Theorem resolution_is_memoized (b : option backend_arg) (dev : option string)
    (st s1 : State) (c : Control) :
  backend h self b dev st = (Return (Some c), s1) ->
  (truthy_arg b = false \/ cls c <> SpotifyVolumeControlAsync \/
   truthy_str dev = false \/ dev = device self) ->
  backend h self b dev s1 = (Return (Some c), s1).
Proof.
  unfold backend. destruct (truthy_arg b) eqn:T; cbn [negb].
  - destruct b as [arg|]; [|discriminate]. intros E Hc.
    apply bind_inv in E. destruct E as (d & sa & E1 & E2).
    destruct (backends_again _ E1) as (_ & Again).
    revert E2. unfold bind at 1, lift at 1.
    destruct (VolumeBackend_of h arg) as [k|e] eqn:V; [|discriminate].
    unfold bind at 1, lift at 1.
    destruct (getitem d k) as [v|e] eqn:G; [|discriminate].
    destruct v as [c0|]; cbn [truthy_ctl negb]; [|discriminate].
    destruct (isinstance (Some c0) [SpotifyVolumeControlAsync] && truthy_str dev
              && negb (opt_str_eqb dev (device self))) eqn:F.
    + unfold bind, construct_remote, new, ret. intros [= <- <-].
      apply andb_prop in F. destruct F as (F & F3).
      apply andb_prop in F. destruct F as (F1 & F2).
      destruct Hc as [Hc | [Hc | [Hc | Hc]]].
      * discriminate.
      * now elim Hc.
      * congruence.
      * apply opt_str_eqb_true in Hc. rewrite Hc in F3. discriminate.
    + unfold ret. intros [= <- <-].
      erewrite bind_return by exact Again.
      unfold bind, lift. rewrite ?V, ?G. cbn [truthy_ctl negb]. rewrite F. reflexivity.
  - intros E _.
    assert (O : _optimal_backend h self st = (Return (Some c), s1))
      by (destruct b as [arg|]; exact E).
    pose proof (cached_property_again _ _ _ _ (fun v s => eq_refl) O) as Again.
    destruct b as [arg|]; exact Again.
Qed.

(** X2.  A throwaway remote instance is never memoized: resolving the
    remote kind for the same foreign device once more builds the next new
    instance, again bound to that device, and the memo cells stay as they
    were. *)
Theorem throwaway_is_rebuilt (arg : backend_arg) (dev : option string)
    (st s1 : State) (c : Control) :
  truthy_arg (Some arg) = true ->
  backend h self (Some arg) dev st = (Return (Some c), s1) ->
  cls c = SpotifyVolumeControlAsync ->
  truthy_str dev = true ->
  dev <> device self ->
  exists c' s2,
    backend h self (Some arg) dev s1 = (Return (Some c'), s2) /\
    oid c' = S (oid c) /\
    cls c' = SpotifyVolumeControlAsync /\
    bound_device c = dev /\ bound_device c' = dev /\
    spotify_cell s2 = spotify_cell s1 /\
    backends_cell s2 = backends_cell s1.
Proof.
  intros T E K D N. unfold backend in *. rewrite T in *. cbn [negb] in *.
  apply bind_inv in E. destruct E as (d & sa & E1 & E2).
  destruct (backends_again _ E1) as (Cell & _).
  revert E2. unfold bind at 1, lift at 1.
  destruct (VolumeBackend_of h arg) as [k|e] eqn:V; [|discriminate].
  unfold bind at 1, lift at 1.
  destruct (getitem d k) as [v|e] eqn:G; [|discriminate].
  destruct v as [c0|]; cbn [truthy_ctl negb]; [|discriminate].
  apply opt_str_eqb_false in N.
  rewrite D, N. cbn [negb andb]. rewrite andb_true_r.
  destruct (isinstance (Some c0) [SpotifyVolumeControlAsync]) eqn:F.
  - unfold bind, construct_remote, new, ret. intros [= <- <-].
    eexists. eexists. split.
    + unfold _backends, cached_property. cbn [backends_cell set_next_oid].
      rewrite Cell. unfold bind, lift. rewrite ?V, ?G. cbn [truthy_ctl negb].
      rewrite ?F, ?D, ?N. cbn [negb andb]. reflexivity.
    + cbn. repeat split; reflexivity.
  - unfold ret. intros [= <- <-]. cbn in F. rewrite orb_false_r in F.
    rewrite K in F. discriminate.
Qed.

End PlayerMemo.

Section PlayerEdges.

Import Player.

Variable h : Host.
Variable self : Session.

Abbreviation wf := (Player.wf h self).

Lemma backend_falsy (b : option backend_arg) (dev : option string) :
  truthy_arg b = false -> backend h self b dev = _optimal_backend h self.
Proof. intros T. unfold backend. rewrite T. reflexivity. Qed.

(** X3.  When no backend is named and the default kind is the remote one,
    the [device] argument of [change_volume] is ignored: with or without a
    target, one and the same instance and final state serve every device
    given; the instance is the memoized remote one, bound to the session's
    own device, whose level is the one read when no target is given, and
    the write goes to it. *)
Theorem unnamed_backend_ignores_device (by_ : Z) (to : option Z)
    (b : option backend_arg) (fd : bool) (fs : Z) (st : State) :
  wf st ->
  truthy_arg b = false ->
  default_kind h = SPOTIFY ->
  exists c st',
    let vol := match to with
               | Some t => t
               | None => levels st (Stream (device self))
               end in
    (forall dev : option string,
       change_volume h self by_ to b dev fd fs st =
         (Return (FromSetVolume c (vol + by_)), st')) /\
    cls c = SpotifyVolumeControlAsync /\
    bound_device c = device self /\
    spotify_cell st' = Some c /\
    trace st' = trace st ++ [SetVolume c (vol + by_) fd fs].
Proof.
  intros W T D.
  pose proof (change_volume_result by_ to b None fd fs W) as C.
  rewrite (chosen_falsy h _ T), D in C.
  destruct C as (c & s1 & st' & R & W1 & X1 & (K & Q) & E & W' & S & L).
  rewrite (throwaway_falsy self _ _ _ T) in Q.
  destruct (wf_cell W1 _ Q) as (_ & _ & _ & B).
  assert (TG : target_of c = Stream (device self)).
  { unfold target_of. rewrite K. cbn. now rewrite B. }
  rewrite TG in E, S. cbn zeta in E, S.
  unfold write_result in E. unfold write_event in S.
  change (VolumeBackend_eqb SPOTIFY SPOTIFY) with true in E, S. cbv iota in E, S.
  exists c, st'. cbn zeta.
  split; [|split; [exact K|split; [exact B|split; [|exact (steps_trace S)]]]].
  - intros dev. rewrite <- E. unfold change_volume.
    now rewrite !(backend_falsy _ _ T).
  - assert (C1 : spotify_cell s1 = Some c).
    { cbn in Q. destruct (spotify_cell s1); [now inversion Q | discriminate]. }
    revert E. unfold change_volume. erewrite bind_return by exact R.
    cbv beta iota zeta. rewrite K. cbn [Class_eqb class_of].
    destruct to as [t|]; cbn; intros H; apply (f_equal snd) in H;
      cbn [snd] in H; subst st'; exact C1.
Qed.

(** X4.  A raw value that is the value of no member is rejected by the
    enumeration lookup, after discovery: [backend] raises [ValueError]
    naming the value, hands out no default, and nothing is written. *)
Theorem unknown_value_is_rejected (s : string) (dev : option string) (st : State) :
  wf st ->
  s <> ""%string ->
  (forall k, enum_value h k <> s) ->
  exists st',
    backend h self (Some (Value s)) dev st =
      (Raise (ValueError ("'" ++ s ++ "' is not a valid VolumeBackend")), st') /\
    trace st' = trace st /\ levels st' = levels st /\
    exists d, backends_cell st' = Some d.
Proof.
  intros W NE No.
  assert (T : truthy_arg (Some (Value s)) = true).
  { cbn. apply String.eqb_neq in NE. now rewrite NE. }
  assert (F : find (fun k => (enum_value h k =? s)%string) members = None).
  { unfold members. cbn [find].
    repeat match goal with
           | |- context [(enum_value h ?k =? s)%string] =>
               let E := fresh in
               destruct (String.eqb_spec (enum_value h k) s) as [E|E];
               [elim (No k E)|]
           end.
    reflexivity. }
  unfold backend. rewrite T. cbn [negb].
  destruct (backends_spec W) as (d & s1 & E & W1 & X1 & C1).
  erewrite bind_return by exact E.
  unfold bind, lift, VolumeBackend_of. rewrite F.
  exists s1. split; [reflexivity|].
  split; [exact (ext_trace X1)|]. split; [exact (ext_levels X1)|].
  exists d. exact C1.
Qed.

(** X5.  On a backend other than the remote one, the [fade] and
    [fade_seconds] arguments of [change_volume] have no effect at all. *)
Theorem local_change_volume_ignores_fade (by_ : Z) (to : option Z)
    (b : option backend_arg) (dev : option string) (fd fd' : bool) (fs fs' : Z)
    (k : VolumeBackend) (st : State) :
  wf st ->
  chosen h b = Return k ->
  k <> SPOTIFY ->
  change_volume h self by_ to b dev fd fs st =
  change_volume h self by_ to b dev fd' fs' st.
Proof.
  intros W CH N.
  destruct (backend_result b dev W) as (s1 & W1 & X1 & R).
  rewrite CH in R. destruct R as (c & R & K & _).
  unfold change_volume. erewrite !bind_return by exact R.
  cbv beta iota zeta. rewrite (@class_is_remote k c K).
  assert (F : VolumeBackend_eqb k SPOTIFY = false) by (destruct k; auto; congruence).
  rewrite F. reflexivity.
Qed.

(** X6.  When the resolution raises, [fade] raises the same exception
    before anything happens: no pin, no write of [start], no ramp
    scheduled, no task handle issued. *)
Theorem failed_fade_writes_nothing (limit start step seconds : Z) (force : bool)
    (b : option backend_arg) (spotify_volume : Z) (dev : option string)
    (blocking : bool) (e : exn) (st : State) :
  wf st ->
  chosen h b = Raise e ->
  exists st',
    fade h self limit start step seconds force b spotify_volume dev blocking st
      = (Raise e, st') /\
    trace st' = trace st /\ levels st' = levels st /\ next_task st' = next_task st.
Proof.
  intros W CH.
  pose proof (fade_result limit start step seconds force b spotify_volume dev blocking W) as F.
  rewrite CH in F. destruct F as (st' & E & X).
  exists st'. split; [exact E|]. destruct X. auto.
Qed.

End PlayerEdges.

(** * Sessions over any sequence of calls *)

Section PlayerSequences.

Import Player.

Variable h : Host.
Variable self : Session.

Abbreviation wf := (Player.wf h self).

(** A computation keeps the session well formed and only adds to it,
    whether it returns or raises. *)
Abbreviation keeps m :=
  (forall st : State, wf st -> wf (snd (m st)) /\ grows st (snd (m st))).

Lemma grows_refl (st : State) : grows st st.
Proof. constructor; auto. exists []. now rewrite app_nil_r. Qed.

Lemma grows_trans (a b c : State) : grows a b -> grows b c -> grows a c.
Proof.
  intros [o1 t1 c1 b1 p1 (e1 & r1)] [o2 t2 c2 b2 p2 (e2 & r2)].
  constructor; auto.
  - now transitivity (next_oid b).
  - now transitivity (next_task b).
  - exists (e1 ++ e2). rewrite r2, r1. now rewrite app_assoc.
Qed.

Lemma ext_grows (st st' : State) : ext st st' -> grows st st'.
Proof.
  intros [o c b p l t r]. constructor; auto.
  - rewrite t. apply Nat.le_refl.
  - exists []. now rewrite app_nil_r.
Qed.

Lemma steps_grows (st st' : State) (evs : list Event) : steps st evs st' -> grows st st'.
Proof.
  intros [o c b p t r]. constructor; auto.
  - rewrite t. apply Nat.le_refl.
  - exists evs. exact r.
Qed.

Lemma keeps_ret {A} (a : A) : keeps (@ret State A a).
Proof. intros st W. split; [exact W | apply grows_refl]. Qed.

Lemma keeps_raise {A} (e : exn) : keeps (@raise State A e).
Proof. intros st W. split; [exact W | apply grows_refl]. Qed.

Lemma keeps_bind {A B} (m : M State A) (k : A -> M State B) :
  keeps m -> (forall a, keeps (k a)) -> keeps (bind m k).
Proof.
  intros Pm Pk st W. unfold bind.
  destruct (Pm st W) as (W1 & G1).
  destruct (m st) as [[a|e] s1]; cbn [snd] in *.
  - destruct (Pk a s1 W1) as (W2 & G2).
    split; [exact W2 | exact (grows_trans G1 G2)].
  - split; [exact W1 | exact G1].
Qed.

Lemma keeps_backend (b : option backend_arg) (dev : option string) :
  keeps (backend h self b dev).
Proof.
  intros st W. destruct (backend_result b dev W) as (st' & W' & X & R).
  destruct (chosen h b) as [k|e].
  - destruct R as (c & -> & _). split; [exact W' | exact (ext_grows X)].
  - rewrite R. split; [exact W' | exact (ext_grows X)].
Qed.

Lemma keeps_change_volume (by_ : Z) (to : option Z) (b : option backend_arg)
    (dev : option string) (fd : bool) (fs : Z) :
  keeps (change_volume h self by_ to b dev fd fs).
Proof.
  intros st W. pose proof (change_volume_result by_ to b dev fd fs W) as C.
  destruct (chosen h b) as [k|e].
  - destruct C as (c & s1 & st' & _ & _ & _ & _ & E & W' & S & _).
    cbn zeta in E. rewrite E. split; [exact W' | exact (steps_grows S)].
  - destruct C as (st' & E & W' & X). rewrite E.
    split; [exact W' | exact (ext_grows X)].
Qed.

Lemma keeps_logged {A} (a : A) (e : Event) :
  keeps (fun st => (Return a, log e st)).
Proof.
  intros st W. split; [apply scheduled_wf; exact W|].
  constructor; simpl; auto. exists [e]. reflexivity.
Qed.

Lemma keeps_create_task (c : Control) (spec : FadeSpec) : keeps (create_task c spec).
Proof.
  intros st W. split; [apply task_wf; exact W|].
  constructor; simpl; auto. eexists. reflexivity.
Qed.

Lemma keeps_fade (limit start step seconds : Z) (force : bool)
    (b : option backend_arg) (spotify_volume : Z) (dev : option string)
    (blocking : bool) :
  keeps (fade h self limit start step seconds force b spotify_volume dev blocking).
Proof.
  unfold fade, await_ramp, run_in_executor.
  apply keeps_bind; [apply keeps_backend|]. intros v.
  apply keeps_bind.
  { destruct (negb (isinstance v [SpotifyVolumeControlAsync])); [|apply keeps_ret].
    apply keeps_bind; [apply keeps_change_volume | intros ?; apply keeps_ret]. }
  intros _. apply keeps_bind; [apply keeps_change_volume|]. intros _.
  destruct (isinstance v [SpotifyVolumeControlAsync; LinuxVolumeControlAsync]);
    destruct v as [c|]; try apply keeps_raise.
  - destruct blocking.
    + apply keeps_bind; [apply keeps_logged | intros ?; apply keeps_ret].
    + apply keeps_bind; [apply keeps_create_task | intros ?; apply keeps_ret].
  - apply keeps_bind; [apply keeps_logged | intros ?; apply keeps_ret].
Qed.

Lemma keeps_call (c : call) (st : State) :
  wf st -> wf (after h self c st) /\ grows st (after h self c st).
Proof.
  destruct c; cbn [after].
  - apply keeps_backend.
  - apply keeps_change_volume.
  - apply keeps_fade.
Qed.

(** X7.  Whatever sequence of [backend], [change_volume] and [fade] calls
    is made on a well-formed session, returning or raising, the session
    stays well formed, and everything memoized or logged before is still
    there afterwards: a discovered table and a memoized instance are never
    replaced, the trace is only appended to, and object ids and task
    handles are not reused. *)
Theorem session_invariant (cs : list call) (st : State) :
  wf st ->
  wf (run h self cs st) /\ grows st (run h self cs st).
Proof.
  revert st. induction cs as [|c cs IH]; intros st W.
  - split; [exact W | apply grows_refl].
  - cbn [run fold_left]. destruct (keeps_call c W) as (W1 & G1).
    destruct (IH _ W1) as (W2 & G2).
    split; [exact W2 | exact (grows_trans G1 G2)].
Qed.

End PlayerSequences.

(** * Playback requests *)

Section GenrePlayback.

Import Player.

Variable h : Host.
Variable self : Session.
Variable up : FadeArgs.
Variable top_genres : list string.
Variable genre_playlist : string -> nat -> nat -> option nat.

(** [fade_up] is [fade] on the merged keyword arguments, its handle
    dropped. *)
Lemma fade_up_result (dev : option string) (fade_args : FadeArgs) (st : State) :
  Player.wf h self st ->
  let a := merge up fade_args in
  let spec := mkFadeSpec (default 50%Z (fa_limit a)) (default 0%Z (fa_start a))
                (default 1%Z (fa_step a)) (default 300%Z (fa_seconds a))
                (default false (fa_force a)) in
  match chosen h (default None (fa_backend a)) with
  | Raise e =>
      exists st', fade_up h self up dev fade_args st = (Raise e, st') /\
                  trace st' = trace st
  | Return k =>
      exists c pre st',
        fade_up h self up dev fade_args st = (Return tt, st') /\
        Player.wf h self st' /\
        cls c = class_of k /\
        trace st' = trace st ++ pre ++
          [scheduled k c spec (default false (fa_blocking a)) (next_task st)]
  end.
Proof.
  intros W a spec. unfold fade_up. fold a.
  pose proof (@fade_result h self (default 50%Z (fa_limit a)) (default 0%Z (fa_start a))
                (default 1%Z (fa_step a)) (default 300%Z (fa_seconds a))
                (default false (fa_force a)) (default None (fa_backend a))
                (default 100%Z (fa_spotify_volume a)) dev
                (default false (fa_blocking a)) st W) as F.
  destruct (chosen h (default None (fa_backend a))) as [k|e].
  - destruct F as (c & s1 & r & c2 & st' & _ & K & _ & _ & E & W' & T).
    exists c,
      ((if VolumeBackend_eqb k SPOTIFY then []
        else [SetVolume r (default 100%Z (fa_spotify_volume a)) false 5])
       ++ [write_event k c2 (default 0%Z (fa_start a)) false 5]), st'.
    erewrite bind_return by exact E. split; [reflexivity|].
    split; [exact W'|]. split; [exact K|].
    rewrite T. fold spec. rewrite <- (app_assoc _ [write_event _ _ _ _ _] [_]).
    reflexivity.
  - destruct F as (st' & E & X). exists st'.
    erewrite bind_raise by exact E. split; [reflexivity | exact (ext_trace X)].
Qed.

(** X8.  Once the catalog has answered with a playlist, the genre request
    fades up and only then plays: the call comes to an end and the trace
    has grown by the fade's events, the last of them the scheduling of the
    ramp, followed directly by the playlist being played on the device;
    unless [blocking] is set, playback thus starts while the ramp is merely
    scheduled.  What the caller is handed back is left open. *)
Theorem genre_playback_follows_fade (popularity_pick genre_pick : nat)
    (dev : option string) (fade_args : FadeArgs) (st : State)
    (g0 : string) (rest : list string) (i p : nat) (k : VolumeBackend) :
  Player.wf h self st ->
  top_genres = g0 :: rest ->
  let genre := nth (Nat.modulo genre_pick (List.length top_genres)) top_genres g0 in
  let answer := genre_playlist genre (Nat.modulo popularity_pick 3) in
  (forall j, j < i -> answer j = None) ->
  answer i = Some p ->
  let a := merge up fade_args in
  let spec := mkFadeSpec (default 50%Z (fa_limit a)) (default 0%Z (fa_start a))
                (default 1%Z (fa_step a)) (default 300%Z (fa_seconds a))
                (default false (fa_force a)) in
  chosen h (default None (fa_backend a)) = Return k ->
  forall fuel, i <= fuel ->
  exists c pre r st',
    play_recommended_genre h self up top_genres genre_playlist
      fuel popularity_pick genre_pick dev fade_args st
      = Some (r, st') /\
    cls c = class_of k /\
    trace st' = trace st ++ pre ++
      [scheduled k c spec (default false (fa_blocking a)) (next_task st);
       PlaylistPlay p dev].
Proof.
  intros W E genre answer Hnone Hsome a spec CH fuel Hfuel.
  rewrite (genre_call_unfold h self up genre_playlist fuel popularity_pick genre_pick
             dev fade_args st E).
  fold genre. fold answer.
  rewrite (@while_not_playlist_first answer i (S fuel) 0 p Hnone Hsome).
  assert (L : (i <? S fuel) = true) by (apply Nat.ltb_lt; lia).
  rewrite L. cbn [Nat.add].
  pose proof (fade_up_result dev fade_args W) as F. cbv zeta in F.
  fold a in F. fold spec in F. rewrite CH in F.
  destruct F as (c & pre & s1 & F & W1 & K & T).
  exists c, pre. eexists. eexists.
  erewrite bind_return by exact F.
  unfold playlist_play, bind, ret. split; [reflexivity|]. split; [exact K|].
  cbn [trace log]. rewrite T, <- app_assoc, <- app_assoc. reflexivity.
Qed.

(** X9.  The genre request never plays anything when it fails: without
    any top genre it raises [IndexError] at once, in an unchanged state;
    and when the fade's backend cannot be resolved it raises the
    resolution's exception once the playlist is found, the trace being
    what it was before the call. *)
Theorem genre_playback_fails_silent (popularity_pick genre_pick : nat)
    (dev : option string) (fade_args : FadeArgs) (st : State) :
  (top_genres = [] ->
   forall fuel,
     play_recommended_genre h self up top_genres genre_playlist
       fuel popularity_pick genre_pick dev fade_args st
     = Some (Raise IndexError, st)) /\
  (forall g0 rest i p e,
     Player.wf h self st ->
     top_genres = g0 :: rest ->
     let genre := nth (Nat.modulo genre_pick (List.length top_genres)) top_genres g0 in
     let answer := genre_playlist genre (Nat.modulo popularity_pick 3) in
     (forall j, j < i -> answer j = None) ->
     answer i = Some p ->
     chosen h (default None (fa_backend (merge up fade_args))) = Raise e ->
     forall fuel, i <= fuel ->
     exists st',
       play_recommended_genre h self up top_genres genre_playlist
         fuel popularity_pick genre_pick dev fade_args st
       = Some (Raise e, st') /\
       trace st' = trace st).
Proof.
  split.
  - intros E fuel. unfold play_recommended_genre. rewrite E. reflexivity.
  - intros g0 rest i p e W E genre answer Hnone Hsome CH fuel Hfuel.
    rewrite (genre_call_unfold h self up genre_playlist fuel popularity_pick genre_pick
               dev fade_args st E).
    fold genre. fold answer.
    rewrite (@while_not_playlist_first answer i (S fuel) 0 p Hnone Hsome).
    assert (L : (i <? S fuel) = true) by (apply Nat.ltb_lt; lia).
    rewrite L. cbn [Nat.add].
    pose proof (fade_up_result dev fade_args W) as F. cbv zeta in F.
    rewrite CH in F. destruct F as (s1 & F & T).
    exists s1. erewrite bind_raise by exact F. split; [reflexivity | exact T].
Qed.

End GenrePlayback.

Section Dictionaries.

Import Player.

Lemma lookup_setitem_same (k : string) (v : value) (d : dict) :
  lookup k (setitem k v d) = Some v.
Proof.
  induction d as [|[k' v'] t IH]; cbn [setitem lookup].
  - now rewrite String.eqb_refl.
  - destruct (k' =? k)%string eqn:E; cbn [lookup]; rewrite E; [reflexivity | exact IH].
Qed.

Lemma lookup_setitem_other (k k0 : string) (v : value) (d : dict) :
  k0 <> k -> lookup k0 (setitem k v d) = lookup k0 d.
Proof.
  intros N. induction d as [|[k' v'] t IH]; cbn [setitem lookup].
  - apply String.eqb_neq in N. rewrite String.eqb_sym in N. now rewrite N.
  - destruct (k' =? k)%string eqn:E; cbn [lookup].
    + apply String.eqb_eq in E. subst k'.
      assert (F : (k =? k0)%string = false)
        by (apply String.eqb_neq; congruence).
      now rewrite F.
    + destruct (k' =? k0)%string; [reflexivity | exact IH].
Qed.

End Dictionaries.

(** * Keyword arguments *)

Section KeywordArguments.

Import Player.

Lemma prefix_drop (p s : string) :
  String.prefix p s = true -> s = (p ++ drop (String.length p) s)%string.
Proof.
  revert s. induction p as [|a p IH]; intros s.
  - reflexivity.
  - destruct s as [|b s]; cbn; [discriminate|].
    destruct (Ascii.ascii_dec a b) as [E|E]; [|discriminate].
    subst b. intros P. f_equal. exact (IH s P).
Qed.

Lemma prefix_app (p s : string) : String.prefix p (p ++ s) = true.
Proof.
  induction p as [|a p IH]; cbn.
  - destruct s; reflexivity.
  - destruct (Ascii.ascii_dec a a) as [E|E]; [exact IH | now elim E].
Qed.

Lemma drop_app (p s : string) : drop (String.length p) (p ++ s) = s.
Proof. induction p as [|a p IH]; [reflexivity | exact IH]. Qed.

Lemma lookup_absent (k : string) (d : dict) :
  ~ In k (map fst d) -> lookup k d = None.
Proof.
  induction d as [|[k' v] t IH]; cbn; [reflexivity|].
  intros N. destruct (String.eqb_spec k' k) as [E|E].
  - elim N. now left.
  - apply IH. intros I. apply N. now right.
Qed.

(** The comprehension, run over the rest of the keyword arguments from an
    accumulator. *)
Lemma stripped_from (p : string) (kwargs : dict) :
  forall acc s,
    NoDup (map fst kwargs) ->
    lookup s
      (fold_left
         (fun acc kv => if startswith (fst kv) p
                        then setitem (drop (String.length p) (fst kv)) (snd kv) acc
                        else acc)
         kwargs acc) =
    match lookup (p ++ s) kwargs with
    | Some v => Some v
    | None => lookup s acc
    end.
Proof.
  induction kwargs as [|[k v] t IH]; intros acc s ND; cbn [fold_left lookup fst snd].
  - reflexivity.
  - inversion ND as [|? ? Notin ND']; subst.
    rewrite (IH _ s ND').
    destruct (String.eqb_spec k (p ++ s)) as [E|E].
    + subst k. rewrite (lookup_absent _ _ Notin).
      assert (P : startswith (p ++ s) p = true) by apply prefix_app.
      rewrite P.
      assert (D : drop (String.length p) (p ++ s) = s) by apply drop_app.
      rewrite D. apply lookup_setitem_same.
    + destruct (lookup (p ++ s) t) as [v'|]; [reflexivity|].
      destruct (startswith k p) eqn:P; [|reflexivity].
      apply lookup_setitem_other. intros Eq. apply E.
      rewrite (prefix_drop _ _ P). now rewrite <- Eq.
Qed.

Lemma stripped_fade (kwargs : dict) (s : string) :
  NoDup (map fst kwargs) ->
  lookup s (stripped "fade_" 5 kwargs) = lookup ("fade_" ++ s) kwargs.
Proof.
  intros ND. unfold stripped.
  pose proof (stripped_from "fade_" kwargs [] s ND) as H.
  change (String.length "fade_") with 5 in H. rewrite H.
  destruct (lookup ("fade_" ++ s) kwargs); reflexivity.
Qed.

Lemma stripped_rec (kwargs : dict) (s : string) :
  NoDup (map fst kwargs) ->
  lookup s (stripped "rec_" 4 kwargs) = lookup ("rec_" ++ s) kwargs.
Proof.
  intros ND. unfold stripped.
  pose proof (stripped_from "rec_" kwargs [] s ND) as H.
  change (String.length "rec_") with 4 in H. rewrite H.
  destruct (lookup ("rec_" ++ s) kwargs); reflexivity.
Qed.

(** X12.  The two comprehensions hand every prefixed keyword on under its
    bare name: in the dictionary built from the [fade_] keywords, a name
    is bound to what [fade_] followed by that name is bound to in the
    call, and to nothing when the call has no such keyword; likewise for
    [rec_].  So the slices [5:] and [4:] are the lengths of the prefixes
    tested. *)
Theorem prefixed_keywords_are_stripped (kwargs : dict) (s : string) :
  NoDup (map fst kwargs) ->
  lookup s (stripped "fade_" 5 kwargs) = lookup ("fade_" ++ s) kwargs /\
  lookup s (stripped "rec_" 4 kwargs) = lookup ("rec_" ++ s) kwargs.
Proof.
  intros ND. split; [apply stripped_fade | apply stripped_rec]; exact ND.
Qed.

(** X13.  An explicit [fade_args] wins only when it is truthy, and then
    the [fade_] keywords are not looked at.  A falsy one (an empty
    dictionary, [None]) is not taken as "no overrides": its own key starts
    with [fade_], so the comprehension hands it on as the keyword [args]. *)
Theorem explicit_fade_args (kwargs : dict) (v : value) :
  NoDup (map fst kwargs) ->
  lookup "fade_args" kwargs = Some v ->
  (truthy v = true -> fade_args_of kwargs = v) /\
  (truthy v = false ->
   exists d, fade_args_of kwargs = VDict d /\ lookup "args" d = Some v).
Proof.
  intros ND L. unfold fade_args_of, value_or, dict_get. rewrite L. split.
  - intros ->. reflexivity.
  - intros ->. eexists. split; [reflexivity|].
    rewrite (@stripped_fade kwargs "args"%string ND). exact L.
Qed.

(** X14.  The recommendation always runs for the call's own
    [time_range]: with no truthy explicit [recommendation_args], the
    dictionary handed on binds [time_range] to it, even when the call
    carries a [rec_time_range] keyword, and every other name to what the
    [rec_] keyword of that name is bound to. *)
Theorem recommendation_uses_call_time_range (kwargs : dict) (time_range : value) :
  NoDup (map fst kwargs) ->
  truthy (dict_get "recommendation_args" kwargs) = false ->
  exists d,
    with_time_range time_range (recommendation_args_of kwargs) = Some d /\
    lookup "time_range" d = Some time_range /\
    (forall s, s <> "time_range"%string -> lookup s d = lookup ("rec_" ++ s) kwargs).
Proof.
  intros ND F. unfold recommendation_args_of, value_or. rewrite F.
  eexists. split; [reflexivity|]. split.
  - apply lookup_setitem_same.
  - intros s N. rewrite (lookup_setitem_other _ _ N).
    exact (@stripped_rec kwargs s ND).
Qed.

End KeywordArguments.

(** * Further properties of the synchronous wrapper *)

Section WrapperReads.

Import Wrapper.

Variable h : Host.
Variable self : Session.

Abbreviation consistent := (Wrapper.consistent h).

(** Nothing observable changed: same trace, same levels, same device. *)
Abbreviation quiet st st' :=
  (trace st' = trace st /\ levels st' = levels st /\
   session_device self st' = session_device self st).

Lemma fresh_consistent (lv : Target -> Z) : consistent (fresh lv).
Proof. constructor; cbn; discriminate. Qed.

Ltac settle W :=
  destruct W as [WA WL WAl WS];
  first
    [ constructor; cbn;
      [ first [ exact WA | intros ? [= <-]; cbn; auto ]
      | first [ exact WL | intros ? [= <-]; cbn; auto ]
      | first [ exact WAl | intros ? [= <-]; cbn; auto ]
      | first [ exact WS | intros ? [= <-]; cbn; auto ] ] ].

Lemma device_quiet (st : State) :
  consistent st ->
  exists st', _device self st = (Return (session_device self st), st') /\
              consistent st' /\ quiet st st' /\
              applescript_cell st' = applescript_cell st /\
              linux_cell st' = linux_cell st /\
              alsa_cell st' = alsa_cell st /\
              spotify_cell st' = spotify_cell st /\
              next_oid st' = next_oid st.
Proof.
  intros W. unfold _device, cached_property, get_device, ret, session_device.
  destruct (device_cell st) as [d|] eqn:C.
  - exists st. rewrite C. split; [reflexivity|]. split; [exact W|]. repeat split; reflexivity.
  - eexists. split; [reflexivity|]. split; [settle W|].
    cbn. repeat split; reflexivity.
Qed.

Lemma absent_applescript (st : State) :
  consistent st -> (sysname h =? "Darwin")%string = false ->
  exists st', _applescript_volume_control h st = (Return None, st') /\
              consistent st' /\ quiet st st'.
Proof.
  intros W P. unfold _applescript_volume_control, cached_property.
  destruct (applescript_cell st) as [[i|]|] eqn:C.
  - destruct (consistent_applescript W C) as (Q & _). congruence.
  - exists st. split; [reflexivity|]. split; [exact W|]. repeat split; reflexivity.
  - rewrite P. cbn [negb]. unfold ret. eexists. split; [reflexivity|].
    split; [settle W | repeat split; reflexivity].
Qed.

Lemma absent_linux (st : State) :
  consistent st -> (sysname h =? "Linux")%string = false ->
  exists st', _linux_volume_control h self st = (Return None, st') /\
              consistent st' /\ quiet st st'.
Proof.
  intros W P. unfold _linux_volume_control, cached_property.
  destruct (linux_cell st) as [[i|]|] eqn:C.
  - destruct (consistent_linux W C) as (Q & _). congruence.
  - exists st. split; [reflexivity|]. split; [exact W|]. repeat split; reflexivity.
  - rewrite P. cbn [negb]. unfold ret. eexists. split; [reflexivity|].
    split; [settle W | repeat split; reflexivity].
Qed.

Lemma absent_alsa (st : State) :
  consistent st -> (sysname h =? "Linux")%string = false ->
  exists st', _alsa_volume_control h st = (Return None, st') /\
              consistent st' /\ quiet st st'.
Proof.
  intros W P. unfold _alsa_volume_control, cached_property.
  destruct (alsa_cell st) as [[i|]|] eqn:C.
  - destruct (consistent_alsa W C) as (Q & _). congruence.
  - exists st. split; [reflexivity|]. split; [exact W|]. repeat split; reflexivity.
  - rewrite P. cbn [negb]. unfold ret. eexists. split; [reflexivity|].
    split; [settle W | repeat split; reflexivity].
Qed.

Lemma present_applescript (st : State) :
  consistent st -> (sysname h =? "Darwin")%string = true ->
  constructor_raises h ApplescriptVolumeControl = false ->
  exists c st',
    _applescript_volume_control h st = (Return (Some c), st') /\
    cls c = ApplescriptVolumeControl /\ consistent st' /\ quiet st st' /\
    _applescript_volume_control h st' = (Return (Some c), st').
Proof.
  intros W P R. unfold _applescript_volume_control, cached_property.
  destruct (applescript_cell st) as [[i|]|] eqn:C.
  - destruct (consistent_applescript W C) as (_ & K & _).
    exists i, st. rewrite C. split; [reflexivity|]. split; [exact K|].
    split; [exact W|]. repeat split; reflexivity.
  - pose proof (consistent_applescript W C) as Q. cbn in Q. congruence.
  - rewrite P. cbn [negb]. unfold bind, construct, new, ret. rewrite R.
    eexists. eexists. split; [reflexivity|]. split; [reflexivity|].
    split; [settle W|]. cbn. repeat split; reflexivity.
Qed.

Lemma failing_applescript (st : State) :
  consistent st -> (sysname h =? "Darwin")%string = true ->
  constructor_raises h ApplescriptVolumeControl = true ->
  _applescript_volume_control h st
    = (Raise (ConstructorFailure ApplescriptVolumeControl), st).
Proof.
  intros W P R. unfold _applescript_volume_control, cached_property.
  destruct (applescript_cell st) as [[i|]|] eqn:C.
  - destruct (consistent_applescript W C) as (_ & _ & Q). congruence.
  - pose proof (consistent_applescript W C) as Q. cbn in Q. congruence.
  - rewrite P. cbn [negb]. unfold bind, construct, raise. rewrite R. reflexivity.
Qed.

Lemma present_linux (st : State) :
  consistent st -> (sysname h =? "Linux")%string = true ->
  constructor_raises h LinuxVolumeControl = false ->
  exists c st',
    _linux_volume_control h self st = (Return (Some c), st') /\
    cls c = LinuxVolumeControl /\ consistent st' /\ quiet st st' /\
    _linux_volume_control h self st' = (Return (Some c), st').
Proof.
  intros W P R. unfold _linux_volume_control, cached_property.
  destruct (linux_cell st) as [[i|]|] eqn:C.
  - destruct (consistent_linux W C) as (_ & K & _).
    exists i, st. rewrite C. split; [reflexivity|]. split; [exact K|].
    split; [exact W|]. repeat split; reflexivity.
  - pose proof (consistent_linux W C) as Q. cbn in Q. congruence.
  - rewrite P. cbn [negb].
    destruct (device_quiet W) as (sd & D & Wd & (T & L & SD) & _).
    erewrite bind_return by exact D.
    unfold bind, construct, new, ret. rewrite R.
    eexists. eexists. split; [reflexivity|]. split; [reflexivity|].
    split; [settle Wd|]. cbn. repeat split; assumption.
Qed.

Lemma failing_linux (st : State) :
  consistent st -> (sysname h =? "Linux")%string = true ->
  constructor_raises h LinuxVolumeControl = true ->
  exists st',
    _linux_volume_control h self st
      = (Raise (ConstructorFailure LinuxVolumeControl), st') /\
    consistent st' /\ quiet st st'.
Proof.
  intros W P R. unfold _linux_volume_control, cached_property.
  destruct (linux_cell st) as [[i|]|] eqn:C.
  - destruct (consistent_linux W C) as (_ & _ & Q). congruence.
  - pose proof (consistent_linux W C) as Q. cbn in Q. congruence.
  - rewrite P. cbn [negb].
    destruct (device_quiet W) as (sd & D & Wd & Q & _).
    erewrite bind_return by exact D.
    unfold bind, construct, raise. rewrite R.
    exists sd. split; [reflexivity|]. split; [exact Wd | exact Q].
Qed.

Lemma remote_read (st : State) :
  consistent st ->
  exists c st',
    _spotify_volume_control self st = (Return c, st') /\
    cls c = SpotifyVolumeControl /\ consistent st' /\ quiet st st'.
Proof.
  intros W. unfold _spotify_volume_control, cached_property.
  destruct (spotify_cell st) as [c|] eqn:C.
  - exists c, st. split; [reflexivity|]. split; [exact (consistent_spotify W C)|].
    split; [exact W|]. repeat split; reflexivity.
  - destruct (device_quiet W) as (sd & D & Wd & (T & L & SD) & _).
    erewrite bind_return by exact D. unfold new.
    eexists. eexists. split; [reflexivity|]. split; [reflexivity|].
    split; [settle Wd|]. cbn. repeat split; assumption.
Qed.

Lemma not_both (os : string) :
  (os =? "Linux")%string = true -> (os =? "Darwin")%string = false.
Proof. intros E. apply String.eqb_eq in E. subst os. reflexivity. Qed.

(** The end of [play]: the device is read and playback started. *)
Lemma play_ends (tracks : list string) (device_id : option string) (st : State) :
  exists st',
    bind (_device self)
      (fun d => start_playback tracks (py_or (id d) device_id)) st
      = (Return (tracks, py_or (id (session_device self st)) device_id), st') /\
    trace st' = trace st ++
      [StartPlayback tracks (py_or (id (session_device self st)) device_id)].
Proof.
  destruct (device_read self st) as (s1 & E & D & T).
  erewrite bind_return by exact E. unfold start_playback.
  eexists. split; [reflexivity|]. cbn. now rewrite T.
Qed.

(** What [play] with [fade] set does, platform by platform. *)
Lemma play_fade_cases (tracks : list string) (device_id : option string)
    (volume : Z) (fade_args : list (string * Z)) (st : State) :
  consistent st ->
  let dev := py_or (id (session_device self st)) device_id in
  exists evs r st',
    play h self tracks device_id true volume fade_args st = (r, st') /\
    trace st' = trace st ++ evs /\
    (((sysname h =? "Darwin")%string = true /\
      constructor_raises h ApplescriptVolumeControl = false /\
      r = Return (tracks, dev) /\
      exists a, cls a = ApplescriptVolumeControl /\
        evs = (if truthy_str (audio_device self)
               then [SwitchAudioDevice a (audio_device self)] else [])
              ++ [ThreadStart a fade_args; StartPlayback tracks dev]) \/
     ((sysname h =? "Darwin")%string = true /\
      constructor_raises h ApplescriptVolumeControl = true /\
      r = Raise (ConstructorFailure ApplescriptVolumeControl) /\ evs = []) \/
     ((sysname h =? "Linux")%string = true /\
      constructor_raises h LinuxVolumeControl = false /\
      r = Return (tracks, dev) /\
      exists l sp, cls l = LinuxVolumeControl /\ cls sp = SpotifyVolumeControl /\
        evs = [SetVolume sp volume; ThreadStart l fade_args;
               StartPlayback tracks dev]) \/
     ((sysname h =? "Linux")%string = true /\
      constructor_raises h LinuxVolumeControl = true /\
      r = Raise (ConstructorFailure LinuxVolumeControl) /\ evs = []) \/
     ((sysname h =? "Darwin")%string = false /\
      (sysname h =? "Linux")%string = false /\
      r = Return (tracks, dev) /\
      exists sp, cls sp = SpotifyVolumeControl /\
        evs = [ThreadStart sp fade_args; StartPlayback tracks dev])).
Proof.
  intros W dev. unfold play.
  destruct (sysname h =? "Darwin")%string eqn:PD.
  - destruct (constructor_raises h ApplescriptVolumeControl) eqn:RA.
    + exists [], (Raise (ConstructorFailure ApplescriptVolumeControl)), st.
      split.
      * erewrite bind_raise; [reflexivity|].
        erewrite bind_raise; [reflexivity|]. exact (failing_applescript W PD RA).
      * split; [now rewrite app_nil_r|]. right. left. auto.
    + destruct (present_applescript W PD RA) as (a & s1 & E1 & Ka & W1 & (T1 & _ & D1) & Again).
      assert (B : exists s2,
                 bind (_applescript_volume_control h) (fun a0 =>
                   if truthy_ctl a0 then
                     bind (fade_of (_applescript_volume_control h)) (fun target =>
                     bind (if truthy_str (audio_device self) then
                             bind (_applescript_volume_control h) (fun a' =>
                             switch_audio_device a' (audio_device self))
                           else ret tt) (fun _ =>
                     thread_start target fade_args))
                   else
                     bind (_linux_volume_control h self) (fun l =>
                     if truthy_ctl l then
                       bind (fade_of (_linux_volume_control h self)) (fun target =>
                       bind (_spotify_volume_control self) (fun sp =>
                       bind (set_volume (Some sp) volume) (fun _ =>
                       thread_start target fade_args)))
                     else
                       bind (_alsa_volume_control h) (fun al =>
                       if truthy_ctl al then
                         bind (fade_of (_alsa_volume_control h)) (fun target =>
                         bind (_spotify_volume_control self) (fun sp =>
                         bind (set_volume (Some sp) volume) (fun _ =>
                         thread_start target fade_args)))
                       else
                         bind (_spotify_volume_control self) (fun target =>
                         thread_start target fade_args)))) st
                 = (Return tt, s2) /\
                 session_device self s2 = session_device self st /\
                 trace s2 = trace st ++
                   (if truthy_str (audio_device self)
                    then [SwitchAudioDevice a (audio_device self)] else [])
                   ++ [ThreadStart a fade_args]).
      { erewrite bind_return by exact E1. cbn [truthy_ctl].
        unfold fade_of. erewrite bind_return by (erewrite bind_return by exact Again; reflexivity).
        destruct (truthy_str (audio_device self)).
        - erewrite bind_return by (erewrite bind_return by exact Again; reflexivity).
          unfold thread_start. eexists. split; [reflexivity|]. cbn.
          split; [exact D1|]. rewrite T1, <- app_assoc. reflexivity.
        - erewrite bind_return by reflexivity.
          unfold thread_start. eexists. split; [reflexivity|]. cbn.
          split; [exact D1|]. now rewrite T1. }
      destruct B as (s2 & B & D2 & T2).
      destruct (play_ends tracks device_id s2) as (s3 & E3 & T3).
      rewrite D2 in E3, T3. fold dev in E3, T3.
      exists ((if truthy_str (audio_device self)
               then [SwitchAudioDevice a (audio_device self)] else [])
              ++ [ThreadStart a fade_args; StartPlayback tracks dev]),
        (Return (tracks, dev)), s3.
      split.
      * erewrite bind_return by exact B. exact E3.
      * split; [rewrite T3, T2, <- app_assoc, <- app_assoc; reflexivity|].
        left. split; [reflexivity|]. split; [reflexivity|]. split; [reflexivity|].
        exists a. split; [exact Ka | reflexivity].
  - destruct (absent_applescript W PD) as (s1 & E1 & W1 & (T1 & _ & D1)).
    destruct (sysname h =? "Linux")%string eqn:PL.
    + destruct (constructor_raises h LinuxVolumeControl) eqn:RL.
      * destruct (failing_linux W1 PL RL) as (s2 & E2 & W2 & (T2 & _ & D2)).
        exists [], (Raise (ConstructorFailure LinuxVolumeControl)), s2.
        split.
        -- erewrite bind_raise; [reflexivity|].
           erewrite bind_return by exact E1. cbn [truthy_ctl].
           erewrite bind_raise; [reflexivity|]. exact E2.
        -- split; [rewrite T2, T1; now rewrite app_nil_r|].
           right. right. right. left. auto.
      * destruct (present_linux W1 PL RL) as (l & s2 & E2 & Kl & W2 & (T2 & _ & D2) & Again).
        destruct (remote_read W2) as (sp & s3 & E3 & Ks & W3 & (T3 & _ & D3)).
        destruct (play_ends tracks device_id
                    (log (ThreadStart l fade_args)
                       (log (SetVolume sp volume)
                          (set_level (target_of sp) (clamp volume) s3))))
          as (s4 & E4 & T4).
        assert (D4 : session_device self
                       (log (ThreadStart l fade_args)
                          (log (SetVolume sp volume)
                             (set_level (target_of sp) (clamp volume) s3)))
                     = session_device self st).
        { unfold session_device in *. cbn. congruence. }
        rewrite D4 in E4, T4. fold dev in E4, T4.
        exists [SetVolume sp volume; ThreadStart l fade_args; StartPlayback tracks dev],
          (Return (tracks, dev)), s4.
        split.
        -- erewrite bind_return; [exact E4|].
           erewrite bind_return by exact E1. cbn [truthy_ctl].
           erewrite bind_return by exact E2. cbn [truthy_ctl].
           unfold fade_of.
           erewrite bind_return by (erewrite bind_return by exact Again; reflexivity).
           erewrite bind_return by exact E3.
           unfold set_volume, thread_start, bind. reflexivity.
        -- split.
           ++ rewrite T4. cbn [trace log set_level]. rewrite T3, T2, T1.
              rewrite <- app_assoc, <- app_assoc. reflexivity.
           ++ right. right. left. split; [reflexivity|]. split; [reflexivity|].
              split; [reflexivity|]. exists l, sp. auto.
    + destruct (absent_linux W1 PL) as (s2 & E2 & W2 & (T2 & _ & D2)).
      destruct (absent_alsa W2 PL) as (s3 & E3 & W3 & (T3 & _ & D3)).
      destruct (remote_read W3) as (sp & s4 & E4 & Ks & W4 & (T4 & _ & D4)).
      destruct (play_ends tracks device_id (log (ThreadStart sp fade_args) s4))
        as (s5 & E5 & T5).
      assert (D5 : session_device self (log (ThreadStart sp fade_args) s4)
                   = session_device self st).
      { unfold session_device in *. cbn. congruence. }
      rewrite D5 in E5, T5. fold dev in E5, T5.
      exists [ThreadStart sp fade_args; StartPlayback tracks dev],
        (Return (tracks, dev)), s5.
      split.
      * erewrite bind_return; [exact E5|].
        erewrite bind_return by exact E1. cbn [truthy_ctl].
        erewrite bind_return by exact E2. cbn [truthy_ctl].
        erewrite bind_return by exact E3. cbn [truthy_ctl].
        erewrite bind_return by exact E4. reflexivity.
      * split.
        -- rewrite T5. cbn [trace log]. rewrite T4, T3, T2, T1.
           rewrite <- app_assoc. reflexivity.
        -- right. right. right. right. split; [reflexivity|]. split; [reflexivity|].
           split; [reflexivity|]. exists sp. auto.
Qed.

Ltac other_platform :=
  match goal with
  | A : (sysname ?h =? "Linux")%string = true,
    B : (sysname ?h =? "Darwin")%string = true |- _ =>
      rewrite (not_both _ A) in B; discriminate
  | A : ?x = true, B : ?x = false |- _ => rewrite A in B; discriminate
  end.

(** X15.  On Linux, with the composite control constructible, [play] with
    [fade] set does three things in this order: it sets the remote
    volume to [volume], starts the fade thread on the composite Linux
    control, and starts playback. *)
Theorem sync_play_fade_on_linux (tracks : list string) (device_id : option string)
    (volume : Z) (fade_args : list (string * Z)) (st : State) :
  consistent st ->
  (sysname h =? "Linux")%string = true ->
  constructor_raises h LinuxVolumeControl = false ->
  let dev := py_or (id (session_device self st)) device_id in
  exists l sp st',
    play h self tracks device_id true volume fade_args st
      = (Return (tracks, dev), st') /\
    cls l = LinuxVolumeControl /\ cls sp = SpotifyVolumeControl /\
    trace st' = trace st ++
      [SetVolume sp volume; ThreadStart l fade_args; StartPlayback tracks dev].
Proof.
  intros W PL RL dev.
  destruct (play_fade_cases tracks device_id volume fade_args W)
    as (evs & r & st' & E & T & Cases).
  fold dev in Cases.
  destruct Cases as [(P & _) | [(P & _) | [(_ & _ & -> & l & sp & Kl & Ks & ->)
                    | [(_ & R & _) | (_ & P & _)]]]]; try other_platform.
  exists l, sp, st'. auto.
Qed.

(** X16.  On macOS, with the AppleScript control constructible, [play]
    with [fade] set switches the audio device exactly when one is
    configured, starts the fade thread on the AppleScript control and
    starts playback; the remote volume is not written. *)
Theorem sync_play_fade_on_darwin (tracks : list string) (device_id : option string)
    (volume : Z) (fade_args : list (string * Z)) (st : State) :
  consistent st ->
  (sysname h =? "Darwin")%string = true ->
  constructor_raises h ApplescriptVolumeControl = false ->
  let dev := py_or (id (session_device self st)) device_id in
  exists a st',
    play h self tracks device_id true volume fade_args st
      = (Return (tracks, dev), st') /\
    cls a = ApplescriptVolumeControl /\
    trace st' = trace st ++
      (if truthy_str (audio_device self)
       then [SwitchAudioDevice a (audio_device self)] else [])
      ++ [ThreadStart a fade_args; StartPlayback tracks dev].
Proof.
  intros W PD RA dev.
  destruct (play_fade_cases tracks device_id volume fade_args W)
    as (evs & r & st' & E & T & Cases).
  fold dev in Cases.
  destruct Cases as [(_ & _ & -> & a & Ka & ->) | [(_ & R & _) | [(P & _)
                    | [(P & _) | (P & _)]]]]; try other_platform.
  exists a, st'. auto.
Qed.

(** X17.  On a Unix host that is neither macOS nor Linux (FreeBSD, say),
    [play] with [fade] set starts the fade thread on the remote control
    itself and starts playback; nothing is pinned beforehand.  A host
    without [os.uname] is not covered. *)
Theorem sync_play_fade_elsewhere (tracks : list string) (device_id : option string)
    (volume : Z) (fade_args : list (string * Z)) (st : State) :
  consistent st ->
  has_uname h = true ->
  (sysname h =? "Darwin")%string = false ->
  (sysname h =? "Linux")%string = false ->
  let dev := py_or (id (session_device self st)) device_id in
  exists sp st',
    play h self tracks device_id true volume fade_args st
      = (Return (tracks, dev), st') /\
    cls sp = SpotifyVolumeControl /\
    trace st' = trace st ++ [ThreadStart sp fade_args; StartPlayback tracks dev].
Proof.
  intros W _ PD PL dev.
  destruct (play_fade_cases tracks device_id volume fade_args W)
    as (evs & r & st' & E & T & Cases).
  fold dev in Cases.
  destruct Cases as [(P & _) | [(P & _) | [(P & _)
                    | [(P & _) | (_ & _ & -> & sp & Ks & ->)]]]]; try other_platform.
  exists sp, st'. auto.
Qed.

(** X18.  When the constructor of the platform's first control raises
    (the AppleScript control on macOS, the composite control on Linux),
    [play] with [fade] set raises that failure from every consistent
    state, every time: no thread is started and playback never starts,
    whatever other control could have been built. *)
Theorem sync_play_fade_fails_with_constructor (tracks : list string)
    (device_id : option string) (volume : Z) (fade_args : list (string * Z))
    (st : State) (c : Class) :
  consistent st ->
  ((sysname h =? "Darwin")%string = true /\ c = ApplescriptVolumeControl \/
   (sysname h =? "Linux")%string = true /\ c = LinuxVolumeControl) ->
  constructor_raises h c = true ->
  exists st',
    play h self tracks device_id true volume fade_args st
      = (Raise (ConstructorFailure c), st') /\
    trace st' = trace st /\ consistent st'.
Proof.
  intros W Platform R.
  destruct (sysname h =? "Darwin")%string eqn:PD.
  - assert (c = ApplescriptVolumeControl) as ->.
    { destruct Platform as [(_ & ->) | (PL & _)]; [reflexivity|].
      rewrite (not_both _ PL) in PD. discriminate. }
    exists st. split; [|split; [reflexivity | exact W]].
    unfold play. erewrite bind_raise; [reflexivity|].
    erewrite bind_raise; [reflexivity|]. apply failing_applescript; assumption.
  - destruct Platform as [(P & _) | (PL & ->)]; [discriminate|].
    destruct (absent_applescript W PD) as (s1 & E1 & W1 & (T1 & _ & D1)).
    destruct (failing_linux W1 PL R) as (s2 & E2 & W2 & (T2 & _ & D2)).
    exists s2. split; [|split; [congruence | exact W2]].
    unfold play. erewrite bind_raise; [reflexivity|].
    erewrite bind_return by exact E1. cbn [truthy_ctl].
    erewrite bind_raise; [reflexivity|]. exact E2.
Qed.

(** X19.  The ALSA branch of [play] is dead: whatever the platform and
    whether [play] returns or raises, the fade thread is never started on
    an ALSA control. *)
Theorem sync_play_never_fades_alsa (tracks : list string) (device_id : option string)
    (volume : Z) (fade_args : list (string * Z)) (st : State) :
  consistent st ->
  exists evs,
    trace (snd (play h self tracks device_id true volume fade_args st))
      = trace st ++ evs /\
    forall c args, In (ThreadStart c args) evs -> cls c <> AlsaVolumeControl.
Proof.
  intros W.
  destruct (play_fade_cases tracks device_id volume fade_args W)
    as (evs & r & st' & E & T & Cases).
  exists evs. rewrite E. split; [exact T|].
  intros c args I.
  destruct Cases as [(_ & _ & _ & a & Ka & ->) | [(_ & _ & _ & ->)
                    | [(_ & _ & _ & l & sp & Kl & Ks & ->)
                    | [(_ & _ & _ & ->) | (_ & _ & _ & sp & Ks & ->)]]]].
  - apply in_app_or in I. destruct I as [I | I].
    + destruct (truthy_str (audio_device self)); [|elim I].
      destruct I as [I | []]. discriminate.
    + destruct I as [[= <- <-] | [I | []]]; [congruence | discriminate].
  - elim I.
  - destruct I as [I | [[= <- <-] | [I | []]]]; [discriminate | congruence | discriminate].
  - elim I.
  - destruct I as [[= <- <-] | [I | []]]; [congruence | discriminate].
Qed.

(** X20.  The wrapper's [change_volume] does not check availability:
    naming the ALSA kind off Linux, or the AppleScript kind off macOS,
    reads [volume] on [None] and raises [AttributeError]; nothing is
    written. *)
Theorem sync_change_volume_off_platform (value : Z) (st : State) :
  consistent st ->
  ((sysname h =? "Linux")%string = false ->
   exists st',
     change_volume h self value (Member ALSA) st =
       (Raise (AttributeError "'NoneType' object has no attribute 'volume'"), st') /\
     trace st' = trace st /\ levels st' = levels st) /\
  ((sysname h =? "Darwin")%string = false ->
   exists st',
     change_volume h self value (Member APPLESCRIPT) st =
       (Raise (AttributeError "'NoneType' object has no attribute 'volume'"), st') /\
     trace st' = trace st /\ levels st' = levels st).
Proof.
  intros W. split.
  - intros PL. destruct (absent_alsa W PL) as (s1 & E1 & W1 & (T1 & L1 & _)).
    exists s1. split; [|split; assumption].
    unfold change_volume. cbn [valid negb is_kind VolumeBackend_eqb].
    erewrite bind_return by exact E1. reflexivity.
  - intros PD. destruct (absent_applescript W PD) as (s1 & E1 & W1 & (T1 & L1 & _)).
    exists s1. split; [|split; assumption].
    unfold change_volume. cbn [valid negb is_kind VolumeBackend_eqb].
    erewrite bind_return by exact E1. reflexivity.
Qed.

Lemma present_alsa (st : State) :
  consistent st -> (sysname h =? "Linux")%string = true ->
  constructor_raises h AlsaVolumeControl = false ->
  exists c st',
    _alsa_volume_control h st = (Return (Some c), st') /\
    cls c = AlsaVolumeControl /\ consistent st' /\ quiet st st'.
Proof.
  intros W P R. unfold _alsa_volume_control, cached_property.
  destruct (alsa_cell st) as [[i|]|] eqn:C.
  - destruct (consistent_alsa W C) as (_ & K & _).
    exists i, st. split; [reflexivity|]. split; [exact K|].
    split; [exact W|]. repeat split; reflexivity.
  - pose proof (consistent_alsa W C) as Q. cbn in Q. congruence.
  - rewrite P. cbn [negb]. unfold bind, construct, new, ret. rewrite R.
    eexists. eexists. split; [reflexivity|]. split; [reflexivity|].
    split; [settle W|]. cbn. repeat split; reflexivity.
Qed.

Lemma failing_alsa (st : State) :
  consistent st -> (sysname h =? "Linux")%string = true ->
  constructor_raises h AlsaVolumeControl = true ->
  _alsa_volume_control h st = (Raise (ConstructorFailure AlsaVolumeControl), st).
Proof.
  intros W P R. unfold _alsa_volume_control, cached_property.
  destruct (alsa_cell st) as [[i|]|] eqn:C.
  - destruct (consistent_alsa W C) as (_ & _ & Q). congruence.
  - pose proof (consistent_alsa W C) as Q. cbn in Q. congruence.
  - rewrite P. cbn [negb]. unfold bind, construct, raise. rewrite R. reflexivity.
Qed.

(** A computation leaves a consistent state consistent, whether it
    returns or raises. *)
Abbreviation stays m := (forall st : State, consistent st -> consistent (snd (m st))).

Lemma stays_ret {A} (a : A) : stays (@ret State A a).
Proof. intros st W. exact W. Qed.

Lemma stays_raise {A} (e : exn) : stays (@raise State A e).
Proof. intros st W. exact W. Qed.

Lemma stays_bind {A B} (m : M State A) (k : A -> M State B) :
  stays m -> (forall a, stays (k a)) -> stays (bind m k).
Proof.
  intros Pm Pk st W. unfold bind. pose proof (Pm st W) as W1.
  destruct (m st) as [[a|e] s1]; cbn [snd] in *; [exact (Pk a s1 W1) | exact W1].
Qed.

Lemma stays_applescript : stays (_applescript_volume_control h).
Proof.
  intros st W. destruct (sysname h =? "Darwin")%string eqn:P.
  - destruct (constructor_raises h ApplescriptVolumeControl) eqn:R.
    + rewrite (failing_applescript W P R). exact W.
    + destruct (present_applescript W P R) as (c & s1 & -> & _ & W1 & _). exact W1.
  - destruct (absent_applescript W P) as (s1 & -> & W1 & _). exact W1.
Qed.

Lemma stays_linux : stays (_linux_volume_control h self).
Proof.
  intros st W. destruct (sysname h =? "Linux")%string eqn:P.
  - destruct (constructor_raises h LinuxVolumeControl) eqn:R.
    + destruct (failing_linux W P R) as (s1 & -> & W1 & _). exact W1.
    + destruct (present_linux W P R) as (c & s1 & -> & _ & W1 & _). exact W1.
  - destruct (absent_linux W P) as (s1 & -> & W1 & _). exact W1.
Qed.

Lemma stays_alsa : stays (_alsa_volume_control h).
Proof.
  intros st W. destruct (sysname h =? "Linux")%string eqn:P.
  - destruct (constructor_raises h AlsaVolumeControl) eqn:R.
    + rewrite (failing_alsa W P R). exact W.
    + destruct (present_alsa W P R) as (c & s1 & -> & _ & W1 & _). exact W1.
  - destruct (absent_alsa W P) as (s1 & -> & W1 & _). exact W1.
Qed.

Lemma stays_spotify : stays (_spotify_volume_control self).
Proof.
  intros st W. destruct (remote_read W) as (c & s1 & -> & _ & W1 & _). exact W1.
Qed.

Lemma stays_device : stays (_device self).
Proof.
  intros st W. destruct (device_quiet W) as (s1 & -> & W1 & _). exact W1.
Qed.

Lemma stays_logged {A} (a : A) (e : Event) : stays (fun st => (Return a, log e st)).
Proof. intros st W. cbn. settle W. Qed.

Lemma stays_get_volume (c : option Control) : stays (get_volume c).
Proof. destruct c; intros st W; exact W. Qed.

Lemma stays_set_volume (c : option Control) (v : Z) : stays (set_volume c v).
Proof. destruct c; intros st W; [cbn; settle W | exact W]. Qed.

Lemma stays_switch (c : option Control) (d : option string) :
  stays (switch_audio_device c d).
Proof. destruct c; intros st W; [cbn; settle W | exact W]. Qed.

Lemma stays_fade_of (property : M State (option Control)) :
  stays property -> stays (fade_of property).
Proof.
  intros P. apply stays_bind; [exact P|].
  intros [c|]; [apply stays_ret | apply stays_raise].
Qed.

Ltac staying :=
  repeat first
    [ apply stays_ret
    | apply stays_raise
    | apply stays_applescript
    | apply stays_linux
    | apply stays_alsa
    | apply stays_spotify
    | apply stays_device
    | apply stays_get_volume
    | apply stays_set_volume
    | apply stays_switch
    | apply stays_logged
    | apply stays_fade_of
    | apply stays_bind
    | match goal with
      | |- forall st : State, _ -> Wrapper.consistent _ (snd ((if ?b then _ else _) st)) =>
          destruct b
      | |- forall _ : State, _ => fail 1
      | |- forall _, _ => intro
      end ].

Lemma preserves_get_volume (c : option Control) :
  Wrapper.preserves self (get_volume c).
Proof.
  destruct c as [c|]; [|apply preserves_raise].
  intros st r st' [= <- <-]. apply runs_refl.
Qed.

Ltac reading :=
  repeat first
    [ apply preserves_ret
    | apply preserves_raise
    | apply preserves_applescript
    | apply preserves_alsa
    | apply preserves_spotify
    | apply preserves_get_volume
    | apply preserves_set_volume
    | apply preserves_bind
    | match goal with
      | |- forall _, _ => intro
      end ].

Lemma stays_change_volume (value : Z) (backend : backend_arg) :
  stays (change_volume h self value backend).
Proof.
  unfold change_volume.
  destruct (negb (valid h backend)); [apply stays_raise|].
  destruct (is_kind h backend ALSA); [staying|].
  destruct (is_kind h backend APPLESCRIPT); [staying|].
  destruct (is_kind h backend SPOTIFY); staying.
Qed.

Lemma stays_play (tracks : list string) (device_id : option string) (fade : bool)
    (volume : Z) (fade_args : list (string * Z)) :
  stays (play h self tracks device_id fade volume fade_args).
Proof.
  unfold play, thread_start, start_playback. destruct fade; staying.
Qed.

Lemma preserves_change_volume (value : Z) (backend : backend_arg) :
  Wrapper.preserves self (change_volume h self value backend).
Proof.
  unfold change_volume.
  destruct (negb (valid h backend)); [apply preserves_raise|].
  destruct (is_kind h backend ALSA); [reading|].
  destruct (is_kind h backend APPLESCRIPT); [reading|].
  destruct (is_kind h backend SPOTIFY); reading.
Qed.

Lemma preserves_play (tracks : list string) (device_id : option string) (fade : bool)
    (volume : Z) (fade_args : list (string * Z)) :
  Wrapper.preserves self (play h self tracks device_id fade volume fade_args).
Proof.
  unfold play, start_playback.
  apply preserves_bind; [apply preserves_fade_branch|].
  intros _. apply preserves_bind; [apply preserves_device|].
  intros d. apply preserves_log.
Qed.

(** X21.  Whatever sequence of [change_volume] and [play] calls is made
    on the wrapper, returning or raising, what it has memoized stays
    consistent with the host: a memoized [None] only off the property's
    platform, a memoized instance only of the property's class and only
    where its constructor does not raise; the session stays bound to the
    same device and the trace is only appended to. *)
Theorem sync_session_invariant (cs : list call) (st : State) :
  consistent st ->
  consistent (run h self cs st) /\ Wrapper.runs self st (run h self cs st).
Proof.
  revert st. induction cs as [|c cs IH]; intros st W.
  - split; [exact W | apply runs_refl].
  - cbn [run fold_left].
    assert (W1 : consistent (after h self c st))
      by (destruct c; [apply stays_change_volume | apply stays_play]; exact W).
    assert (R1 : Wrapper.runs self st (after h self c st)).
    { destruct c as [value backend | tracks device_id fade volume fade_args];
        cbn [after].
      - apply (@preserves_change_volume value backend st
                 (fst (change_volume h self value backend st))).
        apply surjective_pairing.
      - apply (@preserves_play tracks device_id fade volume fade_args st
                 (fst (play h self tracks device_id fade volume fade_args st))).
        apply surjective_pairing. }
    destruct (IH _ W1) as (W2 & R2).
    split; [exact W2 | exact (runs_trans R1 R2)].
Qed.

End WrapperReads.

(** * Worked instances of the further properties *)

Lemma resolution_is_memoized_witness :
  let first_call :=
    Player.backend Sample.linux_host Sample.player_session (Some (Member ALSA)) None
      (Player.fresh Sample.half) in
  first_call = (Return (Some (mkControl 0 AlsaVolumeControl None)), snd first_call) /\
  Player.backend Sample.linux_host Sample.player_session (Some (Member ALSA)) None
    (snd first_call)
  = (Return (Some (mkControl 0 AlsaVolumeControl None)), snd first_call).
Proof.
  cbv zeta. split; [reflexivity|].
  apply (@resolution_is_memoized Sample.linux_host Sample.player_session
           (Some (Member ALSA)) None (Player.fresh Sample.half));
    [reflexivity | right; left; discriminate].
Defined.

Lemma throwaway_is_rebuilt_witness :
  let first_call :=
    Player.backend Sample.linux_host Sample.player_session (Some (Member SPOTIFY))
      (Some "B"%string) (Player.fresh Sample.half) in
  fst first_call
    = Return (Some (mkControl 2 SpotifyVolumeControlAsync (Some "B"%string))) /\
  exists c' s2,
    Player.backend Sample.linux_host Sample.player_session (Some (Member SPOTIFY))
      (Some "B"%string) (snd first_call) = (Return (Some c'), s2) /\
    oid c' = 3 /\ bound_device c' = Some "B"%string /\
    Player.spotify_cell s2 = Player.spotify_cell (snd first_call).
Proof.
  cbv zeta. split; [reflexivity|].
  destruct (@throwaway_is_rebuilt Sample.linux_host Sample.player_session
              (Member SPOTIFY) (Some "B"%string) (Player.fresh Sample.half)
              (snd (Player.backend Sample.linux_host Sample.player_session
                      (Some (Member SPOTIFY)) (Some "B"%string)
                      (Player.fresh Sample.half)))
              (mkControl 2 SpotifyVolumeControlAsync (Some "B"%string))
              eq_refl eq_refl eq_refl eq_refl)
    as (c' & s2 & E & O & _ & _ & B & S & _); [discriminate|].
  exists c', s2. auto.
Defined.

Lemma unnamed_backend_ignores_device_witness :
  Player.wf Sample.other_host Sample.player_session (Player.fresh Sample.half) /\
  truthy_arg None = false /\
  Player.default_kind Sample.other_host = SPOTIFY /\
  exists c st',
    (forall dev : option string,
       Player.change_volume Sample.other_host Sample.player_session 5 None None
         dev false 5 (Player.fresh Sample.half)
       = (Return (Player.FromSetVolume c (50 + 5)), st')) /\
    cls c = SpotifyVolumeControlAsync /\
    bound_device c = Some "A"%string /\
    Player.spotify_cell st' = Some c /\
    Player.trace st' = Player.trace (Player.fresh Sample.half)
                       ++ [Player.SetVolume c (50 + 5) false 5].
Proof.
  split; [apply fresh_wf|]. split; [reflexivity|]. split; [reflexivity|].
  apply (@unnamed_backend_ignores_device Sample.other_host Sample.player_session
           5 None None false 5 (Player.fresh Sample.half));
    [apply fresh_wf | reflexivity | reflexivity].
Defined.

Lemma unknown_value_is_rejected_witness :
  Player.wf Sample.linux_host Sample.player_session (Player.fresh Sample.half) /\
  (forall k, enum_value Sample.linux_host k <> "bogus"%string) /\
  exists st',
    Player.backend Sample.linux_host Sample.player_session (Some (Value "bogus")) None
      (Player.fresh Sample.half)
    = (Raise (ValueError "'bogus' is not a valid VolumeBackend"), st') /\
    Player.trace st' = Player.trace (Player.fresh Sample.half) /\
    Player.levels st' = Player.levels (Player.fresh Sample.half) /\
    exists d, Player.backends_cell st' = Some d.
Proof.
  assert (No : forall k, enum_value Sample.linux_host k <> "bogus"%string)
    by (intros []; discriminate).
  split; [apply fresh_wf|]. split; [exact No|].
  apply (@unknown_value_is_rejected Sample.linux_host Sample.player_session
           "bogus"%string None (Player.fresh Sample.half));
    [apply fresh_wf | discriminate | exact No].
Defined.

Lemma local_change_volume_ignores_fade_witness :
  Player.wf Sample.linux_host Sample.player_session (Player.fresh Sample.half) /\
  Player.chosen Sample.linux_host (Some (Member ALSA)) = Return ALSA /\
  Player.change_volume Sample.linux_host Sample.player_session 1 None
    (Some (Member ALSA)) None true 60 (Player.fresh Sample.half) =
  Player.change_volume Sample.linux_host Sample.player_session 1 None
    (Some (Member ALSA)) None false 5 (Player.fresh Sample.half).
Proof.
  split; [apply fresh_wf|]. split; [reflexivity|].
  apply (@local_change_volume_ignores_fade Sample.linux_host Sample.player_session
           1 None (Some (Member ALSA)) None true false 60 5 ALSA
           (Player.fresh Sample.half));
    [apply fresh_wf | reflexivity | discriminate].
Defined.

Lemma failed_fade_writes_nothing_witness :
  Player.wf Sample.linux_host Sample.player_session (Player.fresh Sample.half) /\
  Player.chosen Sample.linux_host (Some (Value "linux"))
    = Raise (Player.unavailable) /\
  exists st',
    Player.fade Sample.linux_host Sample.player_session 50 0 1 300 false
      (Some (Value "linux")) 100 None false (Player.fresh Sample.half)
    = (Raise Player.unavailable, st') /\
    Player.trace st' = Player.trace (Player.fresh Sample.half) /\
    Player.levels st' = Player.levels (Player.fresh Sample.half) /\
    Player.next_task st' = Player.next_task (Player.fresh Sample.half).
Proof.
  split; [apply fresh_wf|]. split; [reflexivity|].
  apply (@failed_fade_writes_nothing Sample.linux_host Sample.player_session
           50 0 1 300 false (Some (Value "linux")) 100 None false
           Player.unavailable (Player.fresh Sample.half));
    [apply fresh_wf | reflexivity].
Defined.

Lemma session_invariant_witness :
  Player.wf Sample.linux_host Sample.player_session (Player.fresh Sample.half) /\
  Player.wf Sample.linux_host Sample.player_session
    (Player.run Sample.linux_host Sample.player_session Sample.some_calls
       (Player.fresh Sample.half)) /\
  Player.grows (Player.fresh Sample.half)
    (Player.run Sample.linux_host Sample.player_session Sample.some_calls
       (Player.fresh Sample.half)).
Proof.
  split; [apply fresh_wf|].
  apply (@session_invariant Sample.linux_host Sample.player_session
           Sample.some_calls (Player.fresh Sample.half)).
  apply fresh_wf.
Defined.

Lemma genre_playback_follows_fade_witness :
  Player.wf Sample.linux_host Sample.player_session (Player.fresh Sample.half) /\
  Sample.genres = "rock"%string :: [] /\
  (forall j, j < 2 -> Sample.catalog "rock" 0 j = None) /\
  Sample.catalog "rock" 0 2 = Some 7 /\
  Player.chosen Sample.linux_host
    (Player.default None (Player.fa_backend (Player.merge Sample.up Sample.no_args)))
    = Return ALSA /\
  exists c pre r st',
    Player.play_recommended_genre Sample.linux_host Sample.player_session Sample.up
      Sample.genres Sample.catalog 2 0 0 None Sample.no_args (Player.fresh Sample.half)
    = Some (r, st') /\
    cls c = AlsaVolumeControl /\
    Player.trace st' =
      Player.trace (Player.fresh Sample.half) ++ pre ++
      [Player.RunInExecutor c (mkFadeSpec 80 0 1 5 false); Player.PlaylistPlay 7 None].
Proof.
  assert (No : forall j, j < 2 -> Sample.catalog "rock" 0 j = None)
    by (intros [|[|j]] Hj; [reflexivity | reflexivity | lia]).
  split; [apply fresh_wf|]. split; [reflexivity|]. split; [exact No|].
  split; [reflexivity|]. split; [reflexivity|].
  apply (@genre_playback_follows_fade Sample.linux_host Sample.player_session Sample.up
           Sample.genres Sample.catalog 0 0 None Sample.no_args
           (Player.fresh Sample.half) "rock"%string [] 2 7 ALSA
           (fresh_wf _ _ _) eq_refl No eq_refl eq_refl 2 (le_n 2)).
Defined.

Lemma genre_playback_fails_silent_witness :
  Player.wf Sample.linux_host Sample.player_session (Player.fresh Sample.half) /\
  Player.chosen Sample.linux_host
    (Player.default None
       (Player.fa_backend (Player.merge Sample.up_on_linux Sample.no_args)))
    = Raise Player.unavailable /\
  exists st',
    Player.play_recommended_genre Sample.linux_host Sample.player_session
      Sample.up_on_linux Sample.genres Sample.catalog 2 0 0 None Sample.no_args
      (Player.fresh Sample.half)
    = Some (Raise Player.unavailable, st') /\
    Player.trace st' = Player.trace (Player.fresh Sample.half).
Proof.
  assert (No : forall j, j < 2 -> Sample.catalog "rock" 0 j = None)
    by (intros [|[|j]] Hj; [reflexivity | reflexivity | lia]).
  split; [apply fresh_wf|]. split; [reflexivity|].
  apply (proj2 (@genre_playback_fails_silent Sample.linux_host Sample.player_session
                  Sample.up_on_linux Sample.genres Sample.catalog 0 0 None
                  Sample.no_args (Player.fresh Sample.half))
           "rock"%string [] 2 7 Player.unavailable
           (fresh_wf _ _ _) eq_refl No eq_refl eq_refl 2 (le_n 2)).
Defined.

Lemma prefixed_keywords_are_stripped_witness :
  NoDup (map fst Sample.keyword_arguments) /\
  Player.lookup "limit" (Player.stripped "fade_" 5 Sample.keyword_arguments)
    = Some (Player.VInt 80) /\
  Player.lookup "limit" (Player.stripped "rec_" 4 Sample.keyword_arguments)
    = Some (Player.VInt 20).
Proof.
  assert (ND : NoDup (map fst Sample.keyword_arguments)).
  { repeat constructor; cbn; intuition discriminate. }
  split; [exact ND|].
  exact (@prefixed_keywords_are_stripped Sample.keyword_arguments "limit"%string ND).
Defined.

Lemma explicit_fade_args_witness :
  NoDup (map fst Sample.keyword_arguments) /\
  Player.lookup "fade_args" Sample.keyword_arguments = Some (Player.VDict []) /\
  exists d,
    Player.fade_args_of Sample.keyword_arguments = Player.VDict d /\
    Player.lookup "args" d = Some (Player.VDict []).
Proof.
  assert (ND : NoDup (map fst Sample.keyword_arguments)).
  { repeat constructor; cbn; intuition discriminate. }
  split; [exact ND|]. split; [reflexivity|].
  exact (proj2 (@explicit_fade_args Sample.keyword_arguments (Player.VDict [])
                  ND eq_refl) eq_refl).
Defined.

Lemma recommendation_uses_call_time_range_witness :
  NoDup (map fst Sample.keyword_arguments) /\
  Player.truthy (Player.dict_get "recommendation_args" Sample.keyword_arguments)
    = false /\
  exists d,
    Player.with_time_range (Player.VStr "long_term")
      (Player.recommendation_args_of Sample.keyword_arguments) = Some d /\
    Player.lookup "time_range" d = Some (Player.VStr "long_term") /\
    (forall s, s <> "time_range"%string ->
               Player.lookup s d = Player.lookup ("rec_" ++ s) Sample.keyword_arguments).
Proof.
  assert (ND : NoDup (map fst Sample.keyword_arguments)).
  { repeat constructor; cbn; intuition discriminate. }
  split; [exact ND|]. split; [reflexivity|].
  exact (@recommendation_uses_call_time_range Sample.keyword_arguments
           (Player.VStr "long_term") ND eq_refl).
Defined.

Lemma sync_play_fade_on_linux_witness :
  Wrapper.consistent Sample.sound_linux_host (Wrapper.fresh Sample.half) /\
  (sysname Sample.sound_linux_host =? "Linux")%string = true /\
  constructor_raises Sample.sound_linux_host LinuxVolumeControl = false /\
  exists l sp st',
    Wrapper.play Sample.sound_linux_host Sample.wrapper_session ["track"%string]
      (Some "other"%string) true 80 [] (Wrapper.fresh Sample.half)
    = (Return (["track"%string], Some "id-A"%string), st') /\
    cls l = LinuxVolumeControl /\ cls sp = SpotifyVolumeControl /\
    Wrapper.trace st' =
      [Wrapper.SetVolume sp 80; Wrapper.ThreadStart l [];
       Wrapper.StartPlayback ["track"%string] (Some "id-A"%string)].
Proof.
  split; [apply fresh_consistent|]. split; [reflexivity|]. split; [reflexivity|].
  apply (@sync_play_fade_on_linux Sample.sound_linux_host Sample.wrapper_session
           ["track"%string] (Some "other"%string) 80 [] (Wrapper.fresh Sample.half));
    [apply fresh_consistent | reflexivity | reflexivity].
Defined.

Lemma sync_play_fade_on_darwin_witness :
  Wrapper.consistent Sample.mac_host (Wrapper.fresh Sample.half) /\
  (sysname Sample.mac_host =? "Darwin")%string = true /\
  constructor_raises Sample.mac_host ApplescriptVolumeControl = false /\
  exists a st',
    Wrapper.play Sample.mac_host Sample.wrapper_session ["track"%string]
      None true 80 [] (Wrapper.fresh Sample.half)
    = (Return (["track"%string], Some "id-A"%string), st') /\
    cls a = ApplescriptVolumeControl /\
    Wrapper.trace st' =
      [Wrapper.ThreadStart a [];
       Wrapper.StartPlayback ["track"%string] (Some "id-A"%string)].
Proof.
  split; [apply fresh_consistent|]. split; [reflexivity|]. split; [reflexivity|].
  apply (@sync_play_fade_on_darwin Sample.mac_host Sample.wrapper_session
           ["track"%string] None 80 [] (Wrapper.fresh Sample.half));
    [apply fresh_consistent | reflexivity | reflexivity].
Defined.

Lemma sync_play_fade_elsewhere_witness :
  Wrapper.consistent Sample.other_host (Wrapper.fresh Sample.half) /\
  Wrapper.has_uname Sample.other_host = true /\
  (sysname Sample.other_host =? "Darwin")%string = false /\
  (sysname Sample.other_host =? "Linux")%string = false /\
  exists sp st',
    Wrapper.play Sample.other_host Sample.wrapper_session ["track"%string]
      None true 80 [] (Wrapper.fresh Sample.half)
    = (Return (["track"%string], Some "id-A"%string), st') /\
    cls sp = SpotifyVolumeControl /\
    Wrapper.trace st' =
      [Wrapper.ThreadStart sp [];
       Wrapper.StartPlayback ["track"%string] (Some "id-A"%string)].
Proof.
  split; [apply fresh_consistent|]. split; [reflexivity|]. split; [reflexivity|].
  split; [reflexivity|].
  apply (@sync_play_fade_elsewhere Sample.other_host Sample.wrapper_session
           ["track"%string] None 80 [] (Wrapper.fresh Sample.half));
    [apply fresh_consistent | reflexivity | reflexivity | reflexivity].
Defined.

Lemma sync_play_fade_fails_with_constructor_witness :
  Wrapper.consistent Sample.linux_host (Wrapper.fresh Sample.half) /\
  (sysname Sample.linux_host =? "Linux")%string = true /\
  constructor_raises Sample.linux_host LinuxVolumeControl = true /\
  exists st',
    Wrapper.play Sample.linux_host Sample.wrapper_session ["track"%string]
      None true 80 [] (Wrapper.fresh Sample.half)
    = (Raise (ConstructorFailure LinuxVolumeControl), st') /\
    Wrapper.trace st' = Wrapper.trace (Wrapper.fresh Sample.half) /\
    Wrapper.consistent Sample.linux_host st'.
Proof.
  split; [apply fresh_consistent|]. split; [reflexivity|]. split; [reflexivity|].
  apply (@sync_play_fade_fails_with_constructor Sample.linux_host
           Sample.wrapper_session ["track"%string] None 80 []
           (Wrapper.fresh Sample.half) LinuxVolumeControl);
    [apply fresh_consistent | right; split; reflexivity | reflexivity].
Defined.

Lemma sync_play_never_fades_alsa_witness :
  Wrapper.consistent Sample.sound_linux_host (Wrapper.fresh Sample.half) /\
  exists evs,
    Wrapper.trace
      (snd (Wrapper.play Sample.sound_linux_host Sample.wrapper_session
              ["track"%string] None true 80 [] (Wrapper.fresh Sample.half)))
    = Wrapper.trace (Wrapper.fresh Sample.half) ++ evs /\
    forall c args, In (Wrapper.ThreadStart c args) evs -> cls c <> AlsaVolumeControl.
Proof.
  split; [apply fresh_consistent|].
  apply (@sync_play_never_fades_alsa Sample.sound_linux_host Sample.wrapper_session
           ["track"%string] None 80 [] (Wrapper.fresh Sample.half)).
  apply fresh_consistent.
Defined.

Lemma sync_change_volume_off_platform_witness :
  Wrapper.consistent Sample.mac_host (Wrapper.fresh Sample.half) /\
  (sysname Sample.mac_host =? "Linux")%string = false /\
  exists st',
    Wrapper.change_volume Sample.mac_host Sample.wrapper_session 1 (Member ALSA)
      (Wrapper.fresh Sample.half)
    = (Raise (AttributeError "'NoneType' object has no attribute 'volume'"), st') /\
    Wrapper.trace st' = Wrapper.trace (Wrapper.fresh Sample.half) /\
    Wrapper.levels st' = Wrapper.levels (Wrapper.fresh Sample.half).
Proof.
  split; [apply fresh_consistent|]. split; [reflexivity|].
  apply (proj1 (@sync_change_volume_off_platform Sample.mac_host
                  Sample.wrapper_session 1 (Wrapper.fresh Sample.half)
                  (fresh_consistent _ _))).
  reflexivity.
Defined.

Lemma sync_session_invariant_witness :
  Wrapper.consistent Sample.sound_linux_host (Wrapper.fresh Sample.half) /\
  Wrapper.consistent Sample.sound_linux_host
    (Wrapper.run Sample.sound_linux_host Sample.wrapper_session
       Sample.some_wrapper_calls (Wrapper.fresh Sample.half)) /\
  Wrapper.runs Sample.wrapper_session (Wrapper.fresh Sample.half)
    (Wrapper.run Sample.sound_linux_host Sample.wrapper_session
       Sample.some_wrapper_calls (Wrapper.fresh Sample.half)).
Proof.
  split; [apply fresh_consistent|].
  apply (@sync_session_invariant Sample.sound_linux_host Sample.wrapper_session
           Sample.some_wrapper_calls (Wrapper.fresh Sample.half)).
  apply fresh_consistent.
Defined.
